(** * Max Profit Solver: a shallow embedding of [max_profit_cli.py]

    The development follows the Python source function by function:
    the catalog [BUILDINGS], the optimizer
    [MaxProfitSolver.solve_dp_all_solutions], and the two evaluators
    [MaxProfitSolver.calculate_profit] and
    [MaxProfitSolver.validate_solution].

    Python integers are unbounded and are modelled by [Z].  A Python
    [dict] keeps its insertion order, which the evaluators observe through
    [solution.items()], so a dict is an association list.  Python
    exceptions are modelled by the [Raise] constructor of [result], which
    carries the name of the exception class. *)

From Stdlib Require Import ZArith Lia DecimalString Ascii.
From Stdlib Require DecimalZ.
From stdpp Require Import base list strings.

Local Open Scope string_scope.
Local Open Scope list_scope.
Local Open Scope Z_scope.

(** ** Results and exceptions *)

Inductive result (A : Type) : Type :=
| Ok (a : A)
| Raise (exc : string).
Arguments Ok {A} a.
Arguments Raise {A} exc.

Definition bind {A B} (m : result A) (k : A → result B) : result B :=
  match m with
  | Ok a => k a
  | Raise e => Raise e
  end.

Notation "'let!' x ':=' m 'in' k" := (bind m (λ x, k))
  (at level 10, x name, m at level 100, k at level 200).
Notation "'let!' ' p ':=' m 'in' k" :=
  (bind m (λ x, match x with p => k end))
  (at level 10, p pattern, m at level 100, k at level 200).

(** [for x in xs: acc = body(acc, x)], stopping at the first exception. *)
Fixpoint for_each {A S} (xs : list A) (acc : S) (body : S → A → result S)
  : result S :=
  match xs with
  | [] => Ok acc
  | x :: xs' => let! acc' := body acc x in for_each xs' acc' body
  end.

(** ** Python lists *)

(** [l[i]]: a negative index counts from the end, an index out of range
    raises [IndexError]. *)
Definition py_index {A} (l : list A) (i : Z) : result A :=
  let n := Z.of_nat (length l) in
  let j := if i <? 0 then i + n else i in
  if (0 <=? j) && (j <? n) then
    match l !! Z.to_nat j with
    | Some x => Ok x
    | None => Raise "IndexError"
    end
  else Raise "IndexError".

(** [l[i] = x]. *)
Definition py_setitem {A} (l : list A) (i : Z) (x : A) : result (list A) :=
  let n := Z.of_nat (length l) in
  let j := if i <? 0 then i + n else i in
  if (0 <=? j) && (j <? n) then Ok (<[Z.to_nat j := x]> l)
  else Raise "IndexError".

(** [[x] * n]: the empty list when [n <= 0]. *)
Definition py_list_repeat {A} (x : A) (n : Z) : list A :=
  replicate (Z.to_nat n) x.

(** [range(lo, hi)]. *)
Definition py_range (lo hi : Z) : list Z :=
  (λ k : nat, lo + Z.of_nat k) <$> seq 0 (Z.to_nat (hi - lo)).

(** ** Python dicts with string keys *)

Abbreviation dict := (list (string * Z)).

(** [d[k]]: raises [KeyError] when the key is absent. *)
Fixpoint getitem {V} (k : string) (d : list (string * V)) : result V :=
  match d with
  | [] => Raise "KeyError"
  | (k', v) :: d' => if String.eqb k' k then Ok v else getitem k d'
  end.

(** [d[k] = v]: an existing key keeps its position, a new key is
    appended. *)
Fixpoint setitem {V} (k : string) (v : V) (d : list (string * V))
  : list (string * V) :=
  match d with
  | [] => [(k, v)]
  | (k', v') :: d' =>
      if String.eqb k' k then (k', v) :: d' else (k', v') :: setitem k v d'
  end.

(** [d[k] += delta], that is [d[k] = d[k] + delta]. *)
Definition dict_iadd (k : string) (delta : Z) (d : dict) : result dict :=
  let! v := getitem k d in Ok (setitem k (v + delta) d).

(** [a == b] on dicts: same number of entries and every key of [a] is
    bound in [b] to an equal value; the order of the entries is
    irrelevant. *)
Definition dict_eqb (a b : dict) : bool :=
  (length a =? length b)%nat &&
  forallb (λ '(k, v), match getitem k b with
                      | Ok v' => v =? v'
                      | Raise _ => false
                      end) a.

(** [x in l] for a list of dicts: some item [e] of [l] has [e == x]. *)
Definition list_contains (x : dict) (l : list dict) : bool :=
  existsb (λ e, dict_eqb e x) l.

(** ** The catalog *)

Record config := { time : Z; earning : Z; code : string }.

Definition BUILDINGS : list (string * config) :=
  [ ("Theatre", {| time := 5; earning := 1500; code := "T" |});
    ("Pub", {| time := 4; earning := 1000; code := "P" |});
    ("Commercial Park", {| time := 10; earning := 3000; code := "C" |}) ].

(** ** The optimizer: [solve_dp_all_solutions]

    [dp] is a list of pairs [(max_profit, solutions)].  Every dict that the
    loop updates is a fresh [.copy()], and every list it appends to is a
    fresh list ([list(...)] or [[]]); no object stored in [dp] is written
    after it is stored, so the slots are modelled by values here.  The
    module [Obj] below has the same code on a store of shared objects, and
    [Obj_solve_refines] shows that the two agree. *)

Definition initial_solution : dict :=
  [("Theatre", 0); ("Pub", 0); ("Commercial Park", 0)].

(** Lines 50-54: [best_solutions = []] and the loop that appends every
    incremented copy. *)
Definition extend_replace (building : string) (prev_solutions : list dict)
  : result (list dict) :=
  for_each prev_solutions []
    (λ best_solutions prev_solution,
       let! new_solution := dict_iadd building 1 prev_solution in
       Ok (best_solutions ++ [new_solution])).

(** Lines 56-60: the loop that appends the incremented copies that are not
    yet in [best_solutions]. *)
Definition extend_merge (building : string) (prev_solutions : list dict)
    (best_solutions : list dict) : result (list dict) :=
  for_each prev_solutions best_solutions
    (λ best_solutions prev_solution,
       let! new_solution := dict_iadd building 1 prev_solution in
       Ok (if list_contains new_solution best_solutions
           then best_solutions
           else best_solutions ++ [new_solution])).

(** Lines 36-60: the body of [for building, config in BUILDINGS.items()]. *)
Definition try_building (time_units : Z) (dp : list (Z * list dict)) (t : Z)
    (st : Z * list dict) (item : string * config) : result (Z * list dict) :=
  let '(max_profit, best_solutions) := st in
  let '(building, config) := item in
  let build_time := time config in
  let earning := earning config in
  if t >=? build_time then
    let operational_periods := time_units - t in
    let total_earning := earning * operational_periods in
    let! '(prev_profit, prev_solutions) := py_index dp (t - build_time) in
    let new_profit := prev_profit + total_earning in
    if new_profit >? max_profit then
      let! best_solutions := extend_replace building prev_solutions in
      Ok (new_profit, best_solutions)
    else if new_profit =? max_profit then
      let! best_solutions := extend_merge building prev_solutions best_solutions in
      Ok (max_profit, best_solutions)
    else Ok (max_profit, best_solutions)
  else Ok (max_profit, best_solutions).

(** Lines 32-62: the body of [for t in range(1, time_units + 1)]. *)
Definition dp_step (time_units : Z) (dp : list (Z * list dict)) (t : Z)
  : result (list (Z * list dict)) :=
  let! '(max_profit, best_solutions) := py_index dp (t - 1) in
  let! st := for_each BUILDINGS (max_profit, best_solutions)
          (try_building time_units dp t) in
  py_setitem dp t st.

Definition solve_dp_all_solutions (time_units : Z)
  : result (Z * list dict) :=
  let dp := py_list_repeat (0, [initial_solution]) (time_units + 1) in
  let! dp := for_each (py_range 1 (time_units + 1)) dp (dp_step time_units) in
  py_index dp time_units.

(** ** The evaluators

    Both routines carry the pair [(total_profit, current_time)] through
    the same two nested loops; the source spells the loops out twice, and
    so does the embedding. *)

(** Lines 77-83: [for _ in range(count)]. *)
Fixpoint cp_instances (time_units build_time earning_per_period : Z)
    (count : nat) (st : Z * Z) : Z * Z :=
  match count with
  | O => st
  | S count' =>
      let '(total_profit, current_time) := st in
      let construction_end_time := current_time + build_time in
      let current_time := construction_end_time in
      let operational_periods := time_units - construction_end_time in
      let total_profit :=
        if operational_periods >? 0
        then total_profit + earning_per_period * operational_periods
        else total_profit in
      cp_instances time_units build_time earning_per_period count'
        (total_profit, current_time)
  end.

(** Lines 71-83: [for building, count in solution.items()]. *)
Fixpoint cp_items (time_units : Z) (items : dict) (st : Z * Z)
  : result (Z * Z) :=
  match items with
  | [] => Ok st
  | (building, count) :: items' =>
      if count >? 0 then
        let! config := getitem building BUILDINGS in
        cp_items time_units items'
          (cp_instances time_units (time config) (earning config)
             (Z.to_nat count) st)
      else cp_items time_units items' st
  end.

Definition calculate_profit (time_units : Z) (solution : dict) : result Z :=
  let! '(total_profit, _) := cp_items time_units solution (0, 0) in
  Ok total_profit.

(** Lines 101-107. *)
Fixpoint vs_instances (time_units build_time earning_per_period : Z)
    (count : nat) (total_profit current_time : Z) : Z * Z :=
  match count with
  | O => (total_profit, current_time)
  | S count' =>
      let construction_end_time := current_time + build_time in
      let operational_periods := time_units - construction_end_time in
      if operational_periods >? 0 then
        vs_instances time_units build_time earning_per_period count'
          (total_profit + earning_per_period * operational_periods)
          construction_end_time
      else
        vs_instances time_units build_time earning_per_period count'
          total_profit construction_end_time
  end.

(** Lines 95-107. *)
Fixpoint vs_items (time_units : Z) (items : dict)
    (total_profit current_time : Z) : result (Z * Z) :=
  match items with
  | [] => Ok (total_profit, current_time)
  | (building, count) :: items' =>
      if count >? 0 then
        let! config := getitem building BUILDINGS in
        let '(total_profit, current_time) :=
          vs_instances time_units (time config) (earning config)
            (Z.to_nat count) total_profit current_time in
        vs_items time_units items' total_profit current_time
      else vs_items time_units items' total_profit current_time
  end.

(** [str(n)] for an integer. *)
Definition py_str (n : Z) : string :=
  NilEmpty.string_of_int (Z.to_int n).

(** Digits least significant first; a comma goes in after every third
    digit that has a successor. *)
Fixpoint group3 (rev_digits : list ascii) (k : nat) : list ascii :=
  match rev_digits with
  | [] => []
  | c :: r =>
      match k with
      | 3%nat => ","%char :: c :: group3 r 1
      | _ => c :: group3 r (S k)
      end
  end.

(** [f"{n:,}"]. *)
Definition py_format_comma (n : Z) : string :=
  let digits := String.list_ascii_of_string (py_str (Z.abs n)) in
  let grouped := String.string_of_list_ascii (rev (group3 (rev digits) 0)) in
  if n <? 0 then "-" +:+ grouped else grouped.

(** Line 111. *)
Definition format_message (total_time_used time_units total_profit : Z)
  : string :=
  "Time used: " +:+ py_str total_time_used +:+ "/" +:+ py_str time_units
  +:+ ", Profit: $" +:+ py_format_comma total_profit.

Definition validate_solution (time_units : Z) (solution : dict)
  : result (bool * Z * string) :=
  let! '(total_profit, current_time) := vs_items time_units solution 0 0 in
  let total_time_used := current_time in
  let is_valid := total_time_used <=? time_units in
  let message := format_message total_time_used time_units total_profit in
  Ok (is_valid, total_profit, message).

(** ** The same code on a store of objects

    In the source the combinations and the solution lists are mutable
    objects that are handed around by reference, and the table starts out
    with one list and one dict shared by all its slots.  [Obj] runs the
    optimizer and the evaluators against a store of such objects: a
    computation takes the store and gives back its outcome together with
    the store it leaves behind.  A reference is an index into the store;
    [dp] itself and its tuples are only ever reached through the local
    variable [dp] and stay values. *)

Module Obj.

Abbreviation loc := nat.

Inductive object :=
| ODict (d : dict)
| OList (xs : list loc).

Abbreviation store := (list object).
Definition M (A : Type) : Type := store → result A * store.

Definition ret {A} (a : A) : M A := λ σ, (Ok a, σ).
Definition lift {A} (r : result A) : M A := λ σ, (r, σ).
Definition bind {A B} (m : M A) (k : A → M B) : M B :=
  λ σ, match m σ with
       | (Ok a, σ') => k a σ'
       | (Raise e, σ') => (Raise e, σ')
       end.

Notation "'do!' x ':=' m 'in' k" := (bind m (λ x, k))
  (at level 10, x name, m at level 100, k at level 200).
Notation "'do!' ' p ':=' m 'in' k" :=
  (bind m (λ x, match x with p => k end))
  (at level 10, p pattern, m at level 100, k at level 200).

(** A new object, at the first free address. *)
Definition alloc (o : object) : M loc := λ σ, (Ok (length σ), σ ++ [o]).

Definition load_dict (l : loc) : M dict :=
  λ σ, match σ !! l with
       | Some (ODict d) => (Ok d, σ)
       | _ => (Raise "TypeError", σ)
       end.

Definition load_list (l : loc) : M (list loc) :=
  λ σ, match σ !! l with
       | Some (OList xs) => (Ok xs, σ)
       | _ => (Raise "TypeError", σ)
       end.

(** Overwriting the object at an address. *)
Definition store_at (l : loc) (o : object) : M unit :=
  λ σ, (Ok tt, <[l := o]> σ).

(** [d.copy()]. *)
Definition copy (l : loc) : M loc :=
  do! d := load_dict l in alloc (ODict d).

(** [d[k] += delta], in place. *)
Definition iadd_item (l : loc) (k : string) (delta : Z) : M unit :=
  do! d := load_dict l in
  do! d' := lift (dict_iadd k delta d) in
  store_at l (ODict d').

(** [list(r)]: a new list with the same items. *)
Definition list_of (r : loc) : M loc :=
  do! xs := load_list r in alloc (OList xs).

(** [r.append(x)], in place. *)
Definition append (r x : loc) : M unit :=
  do! xs := load_list r in store_at r (OList (xs ++ [x])).

Fixpoint for_each {A S} (xs : list A) (acc : S) (body : S → A → M S)
  : M S :=
  match xs with
  | [] => ret acc
  | x :: xs' => do! acc' := body acc x in for_each xs' acc' body
  end.

(** [x in r]: some item [e] of the list has [e is x or e == x]. *)
Definition contains (x r : loc) : M bool :=
  do! dx := load_dict x in
  do! xs := load_list r in
  for_each xs false
    (λ found e,
       if found then ret true
       else if (e =? x)%nat then ret true
       else do! de := load_dict e in ret (dict_eqb de dx)).

(** [for x in r: body(x)]: the iterator keeps an index and looks at the
    list again in every round.  The rounds are counted down from [fuel];
    [for_in_list] starts with one more than the length at entry, which is
    enough whenever the body leaves the length of [r] alone. *)
Fixpoint for_in (fuel : nat) (r : loc) (i : nat) (body : loc → M unit)
  : M unit :=
  match fuel with
  | O => lift (Raise "MemoryError")
  | S fuel' =>
      do! xs := load_list r in
      match xs !! i with
      | None => ret tt
      | Some x => do! _ := body x in for_in fuel' r (S i) body
      end
  end.

Definition for_in_list (r : loc) (body : loc → M unit) : M unit :=
  do! xs := load_list r in for_in (S (length xs)) r 0 body.

(** Lines 50-54. *)
Definition extend_replace (building : string) (prev_solutions : loc)
  : M loc :=
  do! best_solutions := alloc (OList []) in
  do! _ := for_in_list prev_solutions
             (λ prev_solution,
                do! new_solution := copy prev_solution in
                do! _ := iadd_item new_solution building 1 in
                append best_solutions new_solution) in
  ret best_solutions.

(** Lines 56-60. *)
Definition extend_merge (building : string) (prev_solutions : loc)
    (best_solutions : loc) : M unit :=
  for_in_list prev_solutions
    (λ prev_solution,
       do! new_solution := copy prev_solution in
       do! _ := iadd_item new_solution building 1 in
       do! found := contains new_solution best_solutions in
       if found then ret tt else append best_solutions new_solution).

(** Lines 36-60. *)
Definition try_building (time_units : Z) (dp : list (Z * loc)) (t : Z)
    (st : Z * loc) (item : string * config) : M (Z * loc) :=
  let '(max_profit, best_solutions) := st in
  let '(building, config) := item in
  let build_time := time config in
  let earning := earning config in
  if t >=? build_time then
    let operational_periods := time_units - t in
    let total_earning := earning * operational_periods in
    do! '(prev_profit, prev_solutions) := lift (py_index dp (t - build_time)) in
    let new_profit := prev_profit + total_earning in
    if new_profit >? max_profit then
      do! best_solutions := extend_replace building prev_solutions in
      ret (new_profit, best_solutions)
    else if new_profit =? max_profit then
      do! _ := extend_merge building prev_solutions best_solutions in
      ret (max_profit, best_solutions)
    else ret (max_profit, best_solutions)
  else ret (max_profit, best_solutions).

(** Lines 32-62. *)
Definition dp_step (time_units : Z) (dp : list (Z * loc)) (t : Z)
  : M (list (Z * loc)) :=
  do! '(max_profit, prev_solutions) := lift (py_index dp (t - 1)) in
  do! best_solutions := list_of prev_solutions in
  do! st := for_each BUILDINGS (max_profit, best_solutions)
              (try_building time_units dp t) in
  lift (py_setitem dp t st).

(** Line 29 builds one dict, one list that holds it and one tuple, and
    fills every slot of [dp] with that tuple. *)
Definition solve_dp_all_solutions (time_units : Z) : M (Z * loc) :=
  do! d0 := alloc (ODict initial_solution) in
  do! l0 := alloc (OList [d0]) in
  let dp := py_list_repeat (0, l0) (time_units + 1) in
  do! dp := for_each (py_range 1 (time_units + 1)) dp (dp_step time_units) in
  lift (py_index dp time_units).

(** The evaluators only read the dict behind [solution]. *)
Definition calculate_profit (time_units : Z) (solution : loc) : M Z :=
  do! items := load_dict solution in
  do! '(total_profit, _) :=
    for_each items (0, 0)
      (λ st '(building, count),
         if count >? 0 then
           do! config := lift (getitem building BUILDINGS) in
           ret (cp_instances time_units (time config) (earning config)
                  (Z.to_nat count) st)
         else ret st) in
  ret total_profit.

Definition validate_solution (time_units : Z) (solution : loc)
  : M (bool * Z * string) :=
  do! items := load_dict solution in
  do! '(total_profit, current_time) :=
    for_each items (0, 0)
      (λ '(total_profit, current_time) '(building, count),
         if count >? 0 then
           do! config := lift (getitem building BUILDINGS) in
           ret (vs_instances time_units (time config) (earning config)
                  (Z.to_nat count) total_profit current_time)
         else ret (total_profit, current_time)) in
  let total_time_used := current_time in
  let is_valid := total_time_used <=? time_units in
  let message := format_message total_time_used time_units total_profit in
  ret (is_valid, total_profit, message).

(** The list object at [r] holds references to dicts with the values
    [vs]. *)
Definition list_is (σ : store) (r : loc) (vs : list dict) : Prop :=
  ∃ xs, σ !! r = Some (OList xs) ∧
        Forall2 (λ l d, σ !! l = Some (ODict d)) xs vs.

(** [σ'] has every object of [σ], unchanged. *)
Definition keeps (σ σ' : store) : Prop :=
  (length σ ≤ length σ')%nat ∧ ∀ l, (l < length σ)%nat → σ' !! l = σ !! l.

(** The slots of the table of references stand for the slots of the table
    of values. *)
Definition table_is (σ : store) (dpo : list (Z * loc))
    (dp : list (Z * list dict)) : Prop :=
  Forall2 (λ so sv, so.1 = sv.1 ∧ list_is σ so.2 sv.2) dpo dp.

End Obj.

(** ** Notions the statements are about *)

(** The reference recurrence: [V h 0 = 0] and, for [1 <= t],
    [V h t] is the maximum of [V h (t-1)] and of
    [V h (t - duration b) + rate b * max (h - t) 0] over the building types
    [b] of the catalog with [duration b <= t].  The recursion is on a
    counter that [V] sets to [t]. *)
Fixpoint V_fuel (fuel : nat) (h t : Z) : Z :=
  match fuel with
  | O => 0
  | S fuel' =>
      if t <=? 0 then 0
      else
        foldr Z.max (V_fuel fuel' h (t - 1))
          ((λ b : string * config,
              V_fuel fuel' h (t - time b.2) + earning b.2 * Z.max (h - t) 0)
           <$> filter (λ b : string * config, time b.2 ≤ t) BUILDINGS)
  end.

Definition V (h t : Z) : Z := V_fuel (Z.to_nat t) h t.

(** The count a combination gives to a building type; a type without an
    entry counts zero. *)
Definition count_of (building : string) (c : dict) : Z :=
  match getitem building c with
  | Ok n => n
  | Raise _ => 0
  end.

(** A combination in the sense of the data model: one entry per building
    type of the catalog, in any order, with non-negative counts. *)
Definition is_combination (c : dict) : Prop :=
  c.*1 ≡ₚ BUILDINGS.*1 ∧ Forall (λ kv : string * Z, 0 ≤ kv.2) c.

(** The entries are listed in the order of the catalog. *)
Definition in_catalog_order (c : dict) : Prop :=
  c.*1 = BUILDINGS.*1.

(** Sum over the building types of [count * duration]. *)
Definition total_time (c : dict) : Z :=
  foldr (λ (b : string * config) acc, count_of b.1 c * time b.2 + acc)
    0 BUILDINGS.

(** The building instances of a combination, type by type in the order
    [names], the instances of one type next to each other. *)
Definition instances_in (names : list string) (c : dict) : list string :=
  concat ((λ b, replicate (Z.to_nat (count_of b c)) b) <$> names).

Definition canonical_instances (c : dict) : list string :=
  instances_in (BUILDINGS.*1) c.

(** The instances in the order in which [c.items()] lists the entries. *)
Definition entry_instances (c : dict) : list string :=
  concat ((λ kv : string * Z, replicate (Z.to_nat kv.2) kv.1) <$> c).

(** Back-to-back construction of the instances in the given order from
    [current_time] on, each instance earning
    [rate * max (h - finish_time) 0]. *)
Fixpoint simulate_order (h : Z) (order : list string) (current_time : Z)
  : result Z :=
  match order with
  | [] => Ok 0
  | b :: order' =>
      let! config := getitem b BUILDINGS in
      let finish_time := current_time + time config in
      let! rest := simulate_order h order' finish_time in
      Ok (earning config * Z.max (h - finish_time) 0 + rest)
  end.

(** Time taken by building the instances one after the other. *)
Fixpoint order_time (order : list string) : Z :=
  match order with
  | [] => 0
  | b :: order' =>
      match getitem b BUILDINGS with
      | Ok config => time config + order_time order'
      | Raise _ => order_time order'
      end
  end.

(** [Sched h t c p]: the table can credit profit [p] to combination [c]
    at step [t], by idling for one step or by finishing one more building
    at the step reached. *)
Inductive Sched (h : Z) : Z → dict → Z → Prop :=
| Sched_start : Sched h 0 initial_solution 0
| Sched_idle t c p : Sched h t c p → Sched h (t + 1) c p
| Sched_build t c p building config c' :
    (building, config) ∈ BUILDINGS →
    Sched h t c p →
    dict_iadd building 1 c = Ok c' →
    Sched h (t + time config) c'
      (p + earning config * (h - (t + time config))).

(** What the loops keep true of a solution list that goes with profit [p]
    at step [t]. *)
Record sols_ok (h t p : Z) (sols : list dict) : Prop := {
  sols_nonempty : sols ≠ [];
  sols_nodup : NoDup sols;
  sols_keys : Forall in_catalog_order sols;
  sols_sched : Forall (λ c, Sched h t c p) sols
}.

(** Slot [t] of the table holds the value of the recurrence and a good
    solution list. *)
Definition slot_ok (h t : Z) (slot : Z * list dict) : Prop :=
  slot.1 = V h t ∧ sols_ok h t slot.1 slot.2.

(** The table has [h + 1] slots and the slots up to [k] are filled in. *)
Definition table_ok (h : Z) (k : nat) (dp : list (Z * list dict)) : Prop :=
  length dp = S (Z.to_nat h) ∧
  ∀ i, (i ≤ k)%nat → ∃ slot, dp !! i = Some slot ∧ slot_ok h (Z.of_nat i) slot.

(** The incremented copies of a solution list, as a relation. *)
Definition incremented (building : string) (prev news : list dict) : Prop :=
  Forall2 (λ c c', dict_iadd building 1 c = Ok c') prev news.

(** ** The command line layer

    The functions that print take the output so far, a list with one
    string for every call of [print], and give back their outcome and the
    output they leave; what was printed before an exception stays
    printed. *)

(** [sep.join(items)]. *)
Definition py_join (sep : string) (items : list string) : string :=
  String.concat sep items.

(** [s * n]. *)
Definition py_str_repeat (s : string) (n : Z) : string :=
  String.concat "" (replicate (Z.to_nat n) s).

(** The character that ["\n"] stands for in the source. *)
Definition newline : string := String "010"%char "".

(** [enumerate(l)]. *)
Definition py_enumerate {A} (l : list A) : list (Z * A) :=
  zip (Z.of_nat <$> seq 0 (length l)) l.

(** Lines 115-122. *)
Definition format_solution (solution : dict) : result string :=
  let! codes :=
    for_each ["Theatre"; "Pub"; "Commercial Park"] []
      (λ codes building,
         let! config := getitem building BUILDINGS in
         let code := code config in
         let! count := getitem building solution in
         Ok (codes ++ [code +:+ ": " +:+ py_str count])) in
  Ok (py_join " " codes).

(** The f-string of lines 161-162. *)
Definition timeline_line (building : string)
    (i start_time end_time period_earning operational_periods
       total_earning : Z) : string :=
  "  " +:+ building +:+ " #" +:+ py_str (i + 1) +:+ ": Time "
  +:+ py_str start_time +:+ "-" +:+ py_str end_time +:+ " "
  +:+ "(Earns $" +:+ py_format_comma period_earning +:+ "/period for "
  +:+ py_str operational_periods +:+ " periods = $"
  +:+ py_format_comma total_earning +:+ ")".

(** The f-string of line 182. *)
Definition summary_line (is_valid : bool) (i : Z) (formatted : string)
    (calculated_profit : Z) : string :=
  let status := if is_valid then "✅" else "❌" in
  "  " +:+ status +:+ " Solution " +:+ py_str (i + 1) +:+ ": " +:+ formatted
  +:+ " (Profit: $" +:+ py_format_comma calculated_profit +:+ ")".

(** The f-string of line 188. *)
Definition single_line (is_valid : bool) (formatted : string)
    (calculated_profit : Z) : string :=
  let status := if is_valid then "✅" else "❌" in
  "  " +:+ status +:+ " " +:+ formatted
  +:+ " (Profit: $" +:+ py_format_comma calculated_profit +:+ ")".

Module Cli.

Definition M (A : Type) : Type := list string → result A * list string.

Definition ret {A} (a : A) : M A := λ out, (Ok a, out).
Definition lift {A} (r : result A) : M A := λ out, (r, out).
Definition bind {A B} (m : M A) (k : A → M B) : M B :=
  λ out, match m out with
         | (Ok a, out') => k a out'
         | (Raise e, out') => (Raise e, out')
         end.

Notation "'io!' x ':=' m 'in' k" := (bind m (λ x, k))
  (at level 10, x name, m at level 100, k at level 200).
Notation "'io!' ' p ':=' m 'in' k" :=
  (bind m (λ x, match x with p => k end))
  (at level 10, p pattern, m at level 100, k at level 200).

(** [print(s)]. *)
Definition print (s : string) : M unit := λ out, (Ok tt, out ++ [s]).

Fixpoint for_each {A S} (xs : list A) (acc : S) (body : S → A → M S)
  : M S :=
  match xs with
  | [] => ret acc
  | x :: xs' => io! acc' := body acc x in for_each xs' acc' body
  end.

(** Lines 124-132. *)
Definition print_header : M unit :=
  io! _ := print (py_str_repeat "=" 80) in
  io! _ := print "🏗️  MAXIMUM PROFIT BUILDING CONSTRUCTION SOLVER" in
  io! _ := print (py_str_repeat "=" 80) in
  io! _ := print "Building Types:" in
  io! _ := for_each BUILDINGS tt
             (λ _ '(building, config),
                print ("  • " +:+ building +:+ " (" +:+ code config
                       +:+ "): " +:+ py_str (time config)
                       +:+ " time units, $"
                       +:+ py_format_comma (earning config)
                       +:+ "/period")) in
  print (py_str_repeat "=" 80).

(** Lines 154-163: [for i in range(count)], with [i] counting up from the
    value given. *)
Fixpoint timeline_rounds (time_units : Z) (building : string)
    (build_time : Z) (count : nat) (i : Z) (current_time : Z) : M Z :=
  match count with
  | O => ret current_time
  | S count' =>
      let start_time := current_time in
      let end_time := current_time + build_time in
      let operational_periods := time_units - end_time in
      io! config := lift (getitem building BUILDINGS) in
      let period_earning := earning config in
      let total_earning :=
        if operational_periods >? 0
        then period_earning * operational_periods
        else 0 in
      io! _ := print (timeline_line building i start_time end_time
                        period_earning operational_periods
                        total_earning) in
      let current_time := end_time in
      timeline_rounds time_units building build_time count' (i + 1)
        current_time
  end.

(** Lines 151-163: [for building, count in solution.items()]. *)
Fixpoint timeline_items (time_units : Z) (items : dict) (current_time : Z)
  : M Z :=
  match items with
  | [] => ret current_time
  | (building, count) :: items' =>
      if count >? 0 then
        io! config := lift (getitem building BUILDINGS) in
        let build_time := time config in
        io! current_time :=
          timeline_rounds time_units building build_time (Z.to_nat count) 0
            current_time in
        timeline_items time_units items' current_time
      else timeline_items time_units items' current_time
  end.

(** Lines 134-166. *)
Definition print_solution_details (time_units : Z) (solution : dict)
    (solution_idx : Z) : M unit :=
  io! _ := print (newline +:+ "📋 SOLUTION #" +:+ py_str (solution_idx + 1)) in
  io! _ := print (py_str_repeat "-" 40) in
  io! formatted := lift (format_solution solution) in
  io! _ := print ("Building Configuration: " +:+ formatted) in
  io! '(is_valid, calculated_profit, message) :=
    lift (validate_solution time_units solution) in
  io! _ := print ("Validation: "
                  +:+ (if is_valid then "✅ Valid" else "❌ Invalid")) in
  io! _ := print ("Details: " +:+ message) in
  io! _ := print (newline +:+ "🏗️  Construction Timeline:") in
  io! current_time := timeline_items time_units solution 0 in
  if current_time =? 0 then print "  No buildings constructed" else ret tt.

(** Lines 168-188. *)
Definition print_summary (time_units max_profit : Z) (solutions : list dict)
  : M unit :=
  io! _ := print (newline +:+ "📊 SUMMARY") in
  io! _ := print (py_str_repeat "=" 80) in
  io! _ := print ("Time Units Available: " +:+ py_str time_units) in
  io! _ := print ("Maximum Profit: $" +:+ py_format_comma max_profit) in
  io! _ := print ("Number of Optimal Solutions: "
                  +:+ py_str (Z.of_nat (length solutions))) in
  if Z.of_nat (length solutions) >? 1 then
    io! _ := print (newline +:+ "🏆 All Optimal Solutions:") in
    for_each (py_enumerate solutions) tt
      (λ _ '(i, solution),
         io! formatted := lift (format_solution solution) in
         io! '(is_valid, calculated_profit, _) :=
           lift (validate_solution time_units solution) in
         print (summary_line is_valid i formatted calculated_profit))
  else
    io! _ := print (newline +:+ "🏆 Optimal Solution:") in
    io! first := lift (py_index solutions 0) in
    io! formatted := lift (format_solution first) in
    io! first := lift (py_index solutions 0) in
    io! '(is_valid, calculated_profit, _) :=
      lift (validate_solution time_units first) in
    print (single_line is_valid formatted calculated_profit).

(** Lines 234-248. *)
Definition batch_mode (time_units : Z) (detailed : bool) : M unit :=
  io! _ := print_header in
  io! _ := print (newline +:+ "⏰ Time Units: " +:+ py_str time_units) in
  io! _ := print "🔍 Solving..." in
  io! '(max_profit, all_solutions) :=
    lift (solve_dp_all_solutions time_units) in
  io! _ := print_summary time_units max_profit all_solutions in
  if detailed && (Z.of_nat (length all_solutions) >? 0) then
    for_each (py_enumerate all_solutions) tt
      (λ _ '(i, solution), print_solution_details time_units solution i)
  else ret tt.

End Cli.

(** One row of the construction timeline. *)
Record timeline_row := {
  row_building : string;
  row_index : Z;
  row_start : Z;
  row_end : Z;
  row_rate : Z;
  row_periods : Z;
  row_total : Z
}.

Definition render_row (r : timeline_row) : string :=
  timeline_line (row_building r) (row_index r) (row_start r) (row_end r)
    (row_rate r) (row_periods r) (row_total r).

(** The rows are laid end to end from [start] on. *)
Fixpoint rows_contiguous (start : Z) (rows : list timeline_row) : Prop :=
  match rows with
  | [] => True
  | r :: rows' => row_start r = start ∧ rows_contiguous (row_end r) rows'
  end.

(** Where the last row ends, or [start] when there is none. *)
Definition rows_end (start : Z) (rows : list timeline_row) : Z :=
  foldl (λ _ r, row_end r) start rows.

(** The earnings shown in the rows, added up. *)
Definition rows_total (rows : list timeline_row) : Z :=
  foldr (λ r acc, row_total r + acc) 0 rows.

(** A row is consistent for horizon [h]: building takes time, the periods
    shown are what is left of the horizon at the end of construction, and
    the earning shown is the rate for every period left, nothing when none
    is left. *)
Definition row_ok (h : Z) (r : timeline_row) : Prop :=
  row_start r < row_end r ∧
  row_periods r = h - row_end r ∧
  row_total r = row_rate r * Z.max (row_periods r) 0.

(** ** Further notions: all the optimal combinations *)

(** How often a building type occurs in an order of construction. *)
Definition occurrences (building : string) (order : list string) : Z :=
  Z.of_nat (length (filter (λ x, x = building) order)).

(** The combination that an order of construction builds: one entry per
    building type, in catalog order, counting the instances. *)
Definition combination_of (order : list string) : dict :=
  (λ b : string * config, (b.1, occurrences b.1 order)) <$> BUILDINGS.

(** Slot [t] lists every combination that the table can credit with the
    profit of the slot. *)
Definition slot_complete (h t : Z) (slot : Z * list dict) : Prop :=
  ∀ c, Sched h t c slot.1 → c ∈ slot.2.

Definition table_complete (h : Z) (k : nat) (dp : list (Z * list dict))
  : Prop :=
  ∀ i, (i ≤ k)%nat →
    ∃ slot, dp !! i = Some slot ∧ slot_complete h (Z.of_nat i) slot.

(** What the loop over the catalog has collected at step [t] once the
    building types [seen] are dealt with: whatever idling or finishing one
    of them credits with the running maximum. *)
Record acc_complete (h t : Z) (seen : list (string * config))
    (st : Z * list dict) : Prop := {
  acc_ge_idle : V h (t - 1) ≤ st.1;
  acc_ge_seen : ∀ b cfg,
    (b, cfg) ∈ seen → time cfg ≤ t →
    V h (t - time cfg) + earning cfg * (h - t) ≤ st.1;
  acc_has_idle : ∀ c, Sched h (t - 1) c st.1 → c ∈ st.2;
  acc_has_seen : ∀ b cfg c0 c',
    (b, cfg) ∈ seen → time cfg ≤ t →
    Sched h (t - time cfg) c0 (st.1 - earning cfg * (h - t)) →
    dict_iadd b 1 c0 = Ok c' → c' ∈ st.2
}.

(** An entry that makes the evaluators fail: a positive count for a name
    that is not in the catalog. *)
Definition unknown_entry (kv : string * Z) : Prop :=
  0 < kv.2 ∧ kv.1 ∉ BUILDINGS.*1.

Example solve_5 :
  solve_dp_all_solutions 5 =
  Ok (1000, [[("Theatre", 0); ("Pub", 1); ("Commercial Park", 0)]]).
Proof. vm_compute. reflexivity. Qed.

Example validate_13 :
  validate_solution 13 [("Theatre", 1); ("Pub", 1); ("Commercial Park", 0)] =
  Ok (true, 16000, "Time used: 9/13, Profit: $16,000").
Proof. vm_compute. reflexivity. Qed.

Example solve_4_tie :
  solve_dp_all_solutions 4 =
  Ok (0, [initial_solution;
          [("Theatre", 0); ("Pub", 1); ("Commercial Park", 0)]]).
Proof. vm_compute. reflexivity. Qed.

Example solve_20 :
  solve_dp_all_solutions 20 =
  Ok (46000, [[("Theatre", 3); ("Pub", 1); ("Commercial Park", 0)]]).
Proof. vm_compute. reflexivity. Qed.

Example solve_minus_3 : solve_dp_all_solutions (-3) = Raise "IndexError".
Proof. vm_compute. reflexivity. Qed.

Example calculate_profit_unknown_type :
  calculate_profit 7 [("Theatre", 1); ("Cinema", 2)] = Raise "KeyError".
Proof. vm_compute. reflexivity. Qed.

Example validate_entry_order :
  validate_solution 10 [("Pub", 1); ("Theatre", 1); ("Commercial Park", 0)] =
  Ok (true, 7500, "Time used: 9/10, Profit: $7,500").
Proof. vm_compute. reflexivity. Qed.

Example V_13 : V 13 13 = 16500.
Proof. vm_compute. reflexivity. Qed.

(** On the store the slots of the table share the first dict (address 0)
    until a copy is incremented. *)
Example Obj_solve_4 :
  Obj.solve_dp_all_solutions 4 [] =
  (Ok (0, 5%nat),
   [Obj.ODict initial_solution;
    Obj.OList [0%nat]; Obj.OList [0%nat]; Obj.OList [0%nat];
    Obj.OList [0%nat]; Obj.OList [0%nat; 6%nat];
    Obj.ODict [("Theatre", 0); ("Pub", 1); ("Commercial Park", 0)]]).
Proof. vm_compute. reflexivity. Qed.

(** * Properties *)

(** ** The catalog *)

Lemma BUILDINGS_positive b cfg :
  (b, cfg) ∈ BUILDINGS → 0 < time cfg ∧ 0 ≤ earning cfg.
Proof.
  unfold BUILDINGS. rewrite !elem_of_cons, elem_of_nil.
  intros [H|[H|[H|[]]]]; inversion H; simpl; lia.
Qed.

Lemma getitem_Ok_elem_of {V} k (d : list (string * V)) v :
  getitem k d = Ok v → (k, v) ∈ d.
Proof.
  induction d as [|[k' v'] d IH]; simpl; [done|].
  destruct (String.eqb_spec k' k) as [->|Hne].
  - intros [= ->]. left.
  - intros H. right. auto.
Qed.

Lemma elem_of_getitem {V} k (d : list (string * V)) v :
  NoDup d.*1 → (k, v) ∈ d → getitem k d = Ok v.
Proof.
  induction d as [|[k' v'] d IH]; simpl; intros Hnd Hin.
  - by apply elem_of_nil in Hin.
  - apply NoDup_cons in Hnd as [Hk Hnd].
    apply elem_of_cons in Hin as [[= <- <-]|Hin].
    + by rewrite String.eqb_refl.
    + destruct (String.eqb_spec k' k) as [->|Hne]; [|auto].
      exfalso. apply Hk. apply list_elem_of_fmap. by exists (k, v).
Qed.

Lemma BUILDINGS_keys_NoDup : NoDup BUILDINGS.*1.
Proof.
  apply (bool_decide_unpack (NoDup BUILDINGS.*1)). vm_compute. exact I.
Qed.

Lemma initial_solution_keys : initial_solution.*1 = BUILDINGS.*1.
Proof. reflexivity. Qed.

Lemma getitem_BUILDINGS b cfg :
  getitem b BUILDINGS = Ok cfg ↔ (b, cfg) ∈ BUILDINGS.
Proof.
  split; [apply getitem_Ok_elem_of|].
  apply elem_of_getitem, BUILDINGS_keys_NoDup.
Qed.

#[local] Opaque BUILDINGS initial_solution.

(** ** The two evaluators compute the same pair *)

Lemma vs_instances_cp h d e n p t :
  vs_instances h d e n p t = cp_instances h d e n (p, t).
Proof.
  revert p t. induction n as [|n IH]; intros p t; simpl.
  - reflexivity.
  - destruct (h - (t + d) >? 0); apply IH.
Qed.

Lemma vs_items_cp h items p t :
  vs_items h items p t = cp_items h items (p, t).
Proof.
  revert p t. induction items as [|[b n] items IH]; intros p t; simpl; [done|].
  destruct (n >? 0); [|apply IH].
  destruct (getitem b BUILDINGS) as [cfg|e]; simpl; [|done].
  rewrite vs_instances_cp.
  destruct (cp_instances h (time cfg) (earning cfg) (Z.to_nat n) (p, t))
    as [p' t'].
  apply IH.
Qed.

(** C8: [calculate_profit] returns the profit component of what
    [validate_solution] returns, and raises exactly when it raises. *)
Theorem calculate_profit_is_validate_profit (h : Z) (c : dict) :
  calculate_profit h c =
  (let! '(_, total_profit, _) := validate_solution h c in Ok total_profit).
Proof.
  unfold calculate_profit, validate_solution.
  rewrite vs_items_cp.
  destruct (cp_items h c (0, 0)) as [[p t]|e]; reflexivity.
Qed.

(** ** The evaluators leave the store alone *)

Lemma Obj_bind_frame {A B} (m : Obj.M A) (k : A → Obj.M B) σ :
  (m σ).2 = σ → (∀ a, (k a σ).2 = σ) → (Obj.bind m k σ).2 = σ.
Proof.
  unfold Obj.bind. destruct (m σ) as [[a|e] σ']; simpl; intros ->; auto.
Qed.

Lemma Obj_for_each_frame {A S} (xs : list A) (body : S → A → Obj.M S) σ :
  (∀ acc x, (body acc x σ).2 = σ) →
  ∀ acc, (Obj.for_each xs acc body σ).2 = σ.
Proof.
  intros Hbody. induction xs as [|x xs IH]; intros acc; simpl; [done|].
  apply Obj_bind_frame; auto.
Qed.

Lemma Obj_load_dict_frame l σ : (Obj.load_dict l σ).2 = σ.
Proof. unfold Obj.load_dict. by destruct (σ !! l) as [[]|]. Qed.

Lemma Obj_calculate_profit_frame h l σ : (Obj.calculate_profit h l σ).2 = σ.
Proof.
  unfold Obj.calculate_profit.
  apply Obj_bind_frame; [apply Obj_load_dict_frame|]. intros items.
  apply Obj_bind_frame; [|by intros [p t]].
  apply Obj_for_each_frame. intros st [b n].
  destruct (n >? 0); [|done].
  apply Obj_bind_frame; done.
Qed.

Lemma Obj_validate_solution_frame h l σ :
  (Obj.validate_solution h l σ).2 = σ.
Proof.
  unfold Obj.validate_solution.
  apply Obj_bind_frame; [apply Obj_load_dict_frame|]. intros items.
  apply Obj_bind_frame; [|by intros [p t]].
  apply Obj_for_each_frame. intros [p t] [b n].
  destruct (n >? 0); [|done].
  apply Obj_bind_frame; done.
Qed.

(** On a store the evaluators return what they return on the value of the
    object. *)
Lemma Obj_cp_items_value h items st σ :
  (Obj.for_each items st
     (λ st '(building, count),
        if count >? 0 then
          Obj.bind (Obj.lift (getitem building BUILDINGS)) (λ config,
          Obj.ret (cp_instances h (time config) (earning config)
                     (Z.to_nat count) st))
        else Obj.ret st) σ).1 = cp_items h items st.
Proof.
  revert st. induction items as [|[b n] items IH]; intros st; simpl; [done|].
  unfold Obj.bind at 1. destruct (n >? 0); simpl.
  - unfold Obj.bind, Obj.lift. destruct (getitem b BUILDINGS); simpl; [|done].
    apply IH.
  - apply IH.
Qed.

Lemma Obj_calculate_profit_value h l σ c :
  σ !! l = Some (Obj.ODict c) → (Obj.calculate_profit h l σ).1 = calculate_profit h c.
Proof.
  intros Hl. unfold Obj.calculate_profit, calculate_profit.
  unfold Obj.bind at 1. unfold Obj.load_dict. rewrite Hl.
  unfold Obj.bind.
  pose proof (Obj_cp_items_value h c (0, 0) σ) as Hv.
  destruct (Obj.for_each _ _ _ σ) as [[[p t]|e] σ']; simpl in *;
    rewrite <- Hv; done.
Qed.

Lemma Obj_vs_items_value h items p t σ :
  (Obj.for_each items (p, t)
     (λ '(total_profit, current_time) '(building, count),
        if count >? 0 then
          Obj.bind (Obj.lift (getitem building BUILDINGS)) (λ config,
          Obj.ret (vs_instances h (time config) (earning config)
                     (Z.to_nat count) total_profit current_time))
        else Obj.ret (total_profit, current_time)) σ).1 =
  vs_items h items p t.
Proof.
  revert p t. induction items as [|[b n] items IH]; intros p t; simpl; [done|].
  unfold Obj.bind at 1. destruct (n >? 0); simpl.
  - unfold Obj.bind, Obj.lift. destruct (getitem b BUILDINGS) as [cfg|e];
      simpl; [|done].
    destruct (vs_instances h (time cfg) (earning cfg) (Z.to_nat n) p t)
      as [p' t'].
    apply IH.
  - apply IH.
Qed.

Lemma Obj_validate_solution_value h l σ c :
  σ !! l = Some (Obj.ODict c) → (Obj.validate_solution h l σ).1 = validate_solution h c.
Proof.
  intros Hl. unfold Obj.validate_solution, validate_solution.
  unfold Obj.bind at 1. unfold Obj.load_dict. rewrite Hl.
  unfold Obj.bind.
  pose proof (Obj_vs_items_value h c 0 0 σ) as Hv.
  destruct (Obj.for_each _ _ _ σ) as [[[p t]|e] σ']; simpl in *;
    rewrite <- Hv; done.
Qed.

(** C9: neither evaluator changes the combination it is given: the store
    after a call of [calculate_profit] or of [validate_solution] on a
    reference is the store before it, so that the object behind the
    reference, and with it every count of the combination, is what it
    was. *)
Theorem evaluators_leave_combination_unchanged
    (h : Z) (solution : Obj.loc) (σ : list Obj.object) :
  (Obj.calculate_profit h solution σ).2 = σ ∧
  (Obj.validate_solution h solution σ).2 = σ ∧
  ∀ c, σ !! solution = Some (Obj.ODict c) →
    (Obj.calculate_profit h solution σ).2 !! solution = Some (Obj.ODict c) ∧
    (Obj.validate_solution h solution σ).2 !! solution = Some (Obj.ODict c).
Proof.
  rewrite Obj_calculate_profit_frame, Obj_validate_solution_frame. auto.
Qed.

(** ** Negative horizons *)

Lemma py_range_empty lo hi : hi ≤ lo → py_range lo hi = [].
Proof.
  intros H. unfold py_range. replace (Z.to_nat (hi - lo)) with 0%nat by lia.
  reflexivity.
Qed.

Lemma py_index_nil {A} (i : Z) : py_index (@nil A) i = Raise "IndexError".
Proof.
  unfold py_index. simpl.
  by destruct (_ && _).
Qed.

(** C5, as the code has it: on a negative horizon the table is empty, the
    loop over [range(1, time_units + 1)] has no iteration, and the final
    lookup [dp[time_units]] raises [IndexError]; no value is returned. *)
Theorem solve_negative_horizon_raises_IndexError (h : Z) :
  h < 0 →
  py_list_repeat (0, [initial_solution]) (h + 1) = [] ∧
  py_range 1 (h + 1) = [] ∧
  solve_dp_all_solutions h = Raise "IndexError".
Proof.
  intros Hh.
  assert (Hdp : py_list_repeat (0, [initial_solution]) (h + 1) = []).
  { unfold py_list_repeat. replace (Z.to_nat (h + 1)) with 0%nat by lia.
    reflexivity. }
  assert (Hrange : py_range 1 (h + 1) = []) by (apply py_range_empty; lia).
  split; [done|]. split; [done|].
  unfold solve_dp_all_solutions. rewrite Hdp, Hrange. simpl.
  apply py_index_nil.
Qed.

Lemma solve_negative_horizon_raises_IndexError_witness :
  -1 < 0 ∧
  py_list_repeat (0, [initial_solution]) (-1 + 1) = [] ∧
  py_range 1 (-1 + 1) = [] ∧
  solve_dp_all_solutions (-1) = Raise "IndexError".
Proof.
  split; [lia|]. apply (solve_negative_horizon_raises_IndexError (-1)). lia.
Defined.

(** C5, as stated, fails: the failure on horizon [-1] is not an
    [InvalidHorizon]. *)
Lemma solve_negative_horizon_not_InvalidHorizon :
  ¬ (∀ h, h < 0 → solve_dp_all_solutions h = Raise "InvalidHorizon").
Proof.
  intros H. specialize (H (-1) ltac:(lia)).
  vm_compute in H. discriminate H.
Qed.

(** ** The evaluators simulate the entries in their own order *)

Lemma simulate_order_app h o1 o2 t :
  simulate_order h (o1 ++ o2) t =
  (let! p1 := simulate_order h o1 t in
   let! p2 := simulate_order h o2 (t + order_time o1) in
   Ok (p1 + p2)).
Proof.
  revert t. induction o1 as [|b o1 IH]; intros t; simpl.
  - rewrite Z.add_0_r. by destruct (simulate_order h o2 t).
  - destruct (getitem b BUILDINGS) as [cfg|e]; simpl; [|done].
    rewrite IH, Z.add_assoc.
    destruct (simulate_order h o1 (t + time cfg)) as [p1|e]; simpl; [|done].
    destruct (simulate_order h o2 _) as [p2|e]; simpl; [|done].
    f_equal. lia.
Qed.

Lemma order_time_app o1 o2 :
  order_time (o1 ++ o2) = order_time o1 + order_time o2.
Proof.
  induction o1 as [|b o1 IH]; simpl; [done|].
  destruct (getitem b BUILDINGS); lia.
Qed.

Lemma order_time_replicate b cfg n :
  getitem b BUILDINGS = Ok cfg →
  order_time (replicate n b) = Z.of_nat n * time cfg.
Proof.
  intros Hb. induction n as [|n IH]; [done|].
  cbn [replicate order_time]. rewrite Hb, IH. lia.
Qed.

Lemma cp_instances_simulate h b cfg n p t :
  getitem b BUILDINGS = Ok cfg →
  ∃ g, simulate_order h (replicate n b) t = Ok g ∧
       cp_instances h (time cfg) (earning cfg) n (p, t) =
       (p + g, t + Z.of_nat n * time cfg).
Proof.
  intros Hb. revert p t. induction n as [|n IH]; intros p t.
  - exists 0. simpl. split; [done|]. apply pair_equal_spec. lia.
  - cbn [replicate simulate_order cp_instances]. rewrite Hb. simpl.
    set (f := t + time cfg).
    set (p' := if h - f >? 0 then p + earning cfg * (h - f) else p).
    destruct (IH p' f) as (g & Hg & Hcp). rewrite Hg, Hcp. simpl.
    eexists; split; [done|]. subst p' f.
    apply pair_equal_spec. split; [|lia].
    destruct (Z.gtb_spec (h - (t + time cfg)) 0);
      [rewrite Z.max_l by lia|rewrite Z.max_r by lia]; lia.
Qed.

Lemma cp_items_simulate h c p t :
  cp_items h c (p, t) =
  (let! g := simulate_order h (entry_instances c) t in
   Ok (p + g, t + order_time (entry_instances c))).
Proof.
  revert p t. induction c as [|[b n] c IH]; intros p t.
  - simpl. f_equal. apply pair_equal_spec. lia.
  - cbn [cp_items]. unfold entry_instances. cbn [fmap list_fmap concat fst snd].
    fold (entry_instances c).
    destruct (Z.gtb_spec n 0) as [Hn|Hn].
    + destruct (getitem b BUILDINGS) as [cfg|e] eqn:Hb.
      * destruct (cp_instances_simulate h b cfg (Z.to_nat n) p t Hb)
          as (g & Hg & Hcp).
        simpl. rewrite Hcp, IH, simulate_order_app, Hg. simpl.
        rewrite order_time_app, (order_time_replicate b cfg) by done.
        destruct (simulate_order h (entry_instances c) _) as [g'|e]; simpl;
          [|done].
        f_equal. apply pair_equal_spec. lia.
      * simpl. destruct (Z.to_nat n) as [|k] eqn:Hk; [lia|].
        simpl. by rewrite Hb.
    + replace (Z.to_nat n) with 0%nat by lia. simpl. apply IH.
Qed.

(** ** Combinations listed in catalog order *)

Lemma count_of_entry (c : dict) b n :
  NoDup c.*1 → (b, n) ∈ c → count_of b c = n.
Proof.
  intros Hnd Hin. unfold count_of. by rewrite (elem_of_getitem b c n).
Qed.

Lemma count_of_nonneg (c : dict) b :
  Forall (λ kv : string * Z, 0 ≤ kv.2) c → 0 ≤ count_of b c.
Proof.
  intros Hc. unfold count_of.
  destruct (getitem b c) as [n|e] eqn:Hb; [|done].
  apply getitem_Ok_elem_of in Hb.
  rewrite Forall_forall in Hc. apply (Hc (b, n) Hb).
Qed.

Lemma entry_instances_in (c : dict) :
  NoDup c.*1 → entry_instances c = instances_in c.*1 c.
Proof.
  intros Hnd. unfold entry_instances, instances_in.
  rewrite <- list_fmap_compose. f_equal.
  apply Forall_fmap_ext, Forall_forall. intros [b n] Hin. simpl.
  by rewrite (count_of_entry c b n).
Qed.

Lemma entry_instances_canonical (c : dict) :
  in_catalog_order c → entry_instances c = canonical_instances c.
Proof.
  intros Hc. unfold canonical_instances. rewrite <- Hc.
  apply entry_instances_in. rewrite Hc. apply BUILDINGS_keys_NoDup.
Qed.

Lemma order_time_instances_in (bs : list (string * config)) (c : dict) :
  bs ⊆ BUILDINGS →
  Forall (λ kv : string * Z, 0 ≤ kv.2) c →
  order_time (instances_in bs.*1 c) =
  foldr (λ (b : string * config) acc, count_of b.1 c * time b.2 + acc) 0 bs.
Proof.
  intros Hbs Hc. unfold instances_in.
  induction bs as [|[b cfg] bs IH]; [done|].
  cbn [fmap list_fmap concat foldr fst snd].
  rewrite order_time_app, IH by (intros x Hx; apply Hbs; by right).
  rewrite (order_time_replicate b cfg)
    by (apply getitem_BUILDINGS, Hbs; left).
  rewrite Z2Nat.id by (by apply count_of_nonneg). reflexivity.
Qed.

Lemma order_time_canonical (c : dict) :
  Forall (λ kv : string * Z, 0 ≤ kv.2) c →
  order_time (canonical_instances c) = total_time c.
Proof. intros Hc. by apply order_time_instances_in. Qed.

Lemma instances_in_names names (c : dict) b :
  b ∈ instances_in names c → b ∈ names.
Proof.
  unfold instances_in. induction names as [|x names IH]; simpl.
  - by intros ?%elem_of_nil.
  - rewrite elem_of_app. intros [H|H].
    + apply elem_of_replicate in H as [-> _]. left.
    + right. auto.
Qed.

Lemma catalog_name_getitem b :
  b ∈ BUILDINGS.*1 → ∃ cfg, getitem b BUILDINGS = Ok cfg.
Proof.
  intros ([b' cfg] & -> & Hin)%list_elem_of_fmap.
  exists cfg. by apply getitem_BUILDINGS.
Qed.

Lemma simulate_order_total h order t :
  Forall (λ b, b ∈ BUILDINGS.*1) order →
  ∃ p, simulate_order h order t = Ok p.
Proof.
  intros Ho. revert t. induction Ho as [|b order Hb _ IH]; intros t; simpl.
  - by exists 0.
  - destruct (catalog_name_getitem b Hb) as [cfg ->]. simpl.
    destruct (IH (t + time cfg)) as [p ->]. simpl. eauto.
Qed.

Lemma canonical_instances_catalog (c : dict) :
  Forall (λ b, b ∈ BUILDINGS.*1) (canonical_instances c).
Proof. apply Forall_forall. intros b. apply instances_in_names. Qed.

(** The evaluator on any dict: the simulation of the entries in the order
    of the dict itself. *)
Lemma validate_solution_simulate h (c : dict) p :
  simulate_order h (entry_instances c) 0 = Ok p →
  validate_solution h c =
  Ok (order_time (entry_instances c) <=? h, p,
      format_message (order_time (entry_instances c)) h p).
Proof.
  intros Hp. unfold validate_solution.
  rewrite vs_items_cp, cp_items_simulate, Hp. simpl.
  by rewrite !Z.add_0_l.
Qed.

(** For a combination listed in catalog order the evaluator follows the
    catalog. *)
Lemma validate_solution_canonical (h : Z) (c : dict) :
  in_catalog_order c →
  Forall (λ kv : string * Z, 0 ≤ kv.2) c →
  ∃ p,
    simulate_order h (canonical_instances c) 0 = Ok p ∧
    validate_solution h c =
    Ok (total_time c <=? h, p, format_message (total_time c) h p).
Proof.
  intros Hord Hc.
  destruct (simulate_order_total h (canonical_instances c) 0
              (canonical_instances_catalog c)) as [p Hp].
  exists p. split; [done|].
  rewrite (validate_solution_simulate h c p)
    by (by rewrite entry_instances_canonical).
  by rewrite entry_instances_canonical, order_time_canonical.
Qed.

Lemma order_time_instances_perm names names' (c : dict) :
  names ≡ₚ names' →
  order_time (instances_in names c) = order_time (instances_in names' c).
Proof.
  unfold instances_in.
  induction 1 as [|x l l' _ IH|x y l|l l' l'' _ IH1 _ IH2]; csimpl.
  - done.
  - by rewrite !order_time_app, IH.
  - rewrite !order_time_app. lia.
  - congruence.
Qed.

Lemma combination_entries (c : dict) :
  is_combination c →
  order_time (entry_instances c) = total_time c ∧
  Forall (λ b, b ∈ BUILDINGS.*1) (entry_instances c).
Proof.
  intros [Hkeys Hnn].
  assert (Hnd : NoDup c.*1) by (rewrite Hkeys; apply BUILDINGS_keys_NoDup).
  rewrite entry_instances_in by done. split.
  - rewrite (order_time_instances_perm _ _ c Hkeys).
    by apply order_time_canonical.
  - apply Forall_forall. intros b Hb%instances_in_names.
    by rewrite <- Hkeys.
Qed.

(** C6, as the code has it: for every combination [validate_solution]
    reports as time used the sum over the building types of count times
    duration, is valid exactly when that sum is at most the horizon, and
    returns the profit of the back-to-back simulation of the instances in
    the order of the entries of the combination itself; that order is the
    catalog order when the entries are listed in catalog order. *)
Theorem validate_solution_entry_order (h : Z) (c : dict) :
  is_combination c →
  ∃ p,
    simulate_order h (entry_instances c) 0 = Ok p ∧
    validate_solution h c =
    Ok (total_time c <=? h, p, format_message (total_time c) h p) ∧
    (in_catalog_order c → entry_instances c = canonical_instances c).
Proof.
  intros Hc. destruct (combination_entries c Hc) as [Htime Hnames].
  destruct (simulate_order_total h (entry_instances c) 0 Hnames) as [p Hp].
  exists p. split; [done|]. split.
  - rewrite (validate_solution_simulate h c p Hp). by rewrite Htime.
  - apply entry_instances_canonical.
Qed.

Lemma validate_solution_entry_order_witness :
  let c := [("Pub", 1); ("Theatre", 1); ("Commercial Park", 0)] in
  is_combination c ∧
  ∃ p,
    simulate_order 10 (entry_instances c) 0 = Ok p ∧
    validate_solution 10 c =
    Ok (total_time c <=? 10, p, format_message (total_time c) 10 p) ∧
    (in_catalog_order c → entry_instances c = canonical_instances c).
Proof.
  assert (Hc : is_combination
                 [("Pub", 1); ("Theatre", 1); ("Commercial Park", 0)]).
  { split; [apply perm_swap|]. repeat constructor; simpl; lia. }
  split; [exact Hc|].
  apply (validate_solution_entry_order 10). exact Hc.
Defined.

(** C6, as stated, fails: the evaluator follows the order of the entries
    of the dict, and a combination that lists Pub before Theatre is
    simulated with the Pub first. *)
Lemma validate_solution_follows_entry_order :
  ¬ (∀ (h : Z) (c : dict),
       is_combination c →
       ∃ p,
         simulate_order h (canonical_instances c) 0 = Ok p ∧
         validate_solution h c =
         Ok (total_time c <=? h, p, format_message (total_time c) h p)).
Proof.
  intros H.
  destruct (H 10 [("Pub", 1); ("Theatre", 1); ("Commercial Park", 0)])
    as (p & Hp & Hv).
  - split; [apply perm_swap|]. repeat constructor; simpl; lia.
  - vm_compute in Hp. injection Hp as <-.
    vm_compute in Hv. discriminate Hv.
Qed.

(** ** The reference recurrence *)

Lemma foldr_max_ge_base (a : Z) (l : list Z) : a ≤ foldr Z.max a l.
Proof. induction l as [|x l IH]; simpl; lia. Qed.

Lemma foldr_max_ge_elem (a x : Z) (l : list Z) : x ∈ l → x ≤ foldr Z.max a l.
Proof.
  induction l as [|y l IH]; simpl.
  - by intros ?%elem_of_nil.
  - intros [->|H]%elem_of_cons; [lia|]. specialize (IH H). lia.
Qed.

Lemma foldr_max_mono {A} (f g : A → Z) (a a' : Z) (l : list A) :
  a ≤ a' → Forall (λ x, f x ≤ g x) l →
  foldr Z.max a (f <$> l) ≤ foldr Z.max a' (g <$> l).
Proof.
  intros Ha Hl. induction Hl as [|x l Hx _ IH]; csimpl; lia.
Qed.

Lemma foldr_max_ext {A} (f g : A → Z) (a a' : Z) (l : list A) :
  a = a' → Forall (λ x, f x = g x) l →
  foldr Z.max a (f <$> l) = foldr Z.max a' (g <$> l).
Proof.
  intros Ha Hl. induction Hl as [|x l Hx _ IH]; csimpl; lia.
Qed.

Lemma filter_catalog t :
  Forall (λ b : string * config, 0 < time b.2 ≤ t ∧ 0 ≤ earning b.2)
    (filter (λ b : string * config, time b.2 ≤ t) BUILDINGS).
Proof.
  apply Forall_forall. intros [b cfg] [Ht Hin]%list_elem_of_filter.
  destruct (BUILDINGS_positive b cfg Hin). simpl in *. lia.
Qed.

Lemma V_fuel_enough h n : ∀ fuel1 fuel2 t,
  t ≤ Z.of_nat n → (n ≤ fuel1)%nat → (n ≤ fuel2)%nat →
  V_fuel fuel1 h t = V_fuel fuel2 h t.
Proof.
  induction n as [|n IH]; intros fuel1 fuel2 t Ht H1 H2.
  - destruct fuel1, fuel2; simpl; try done;
      replace (t <=? 0) with true by lia; done.
  - destruct fuel1 as [|fuel1]; [lia|]. destruct fuel2 as [|fuel2]; [lia|].
    simpl. destruct (Z.leb_spec t 0); [done|].
    apply foldr_max_ext; [apply IH; lia|].
    eapply Forall_impl; [apply (filter_catalog t)|].
    intros [b cfg]; simpl. intros [Hd He].
    f_equal. apply IH; lia.
Qed.

Lemma V_nonpos h t : t ≤ 0 → V h t = 0.
Proof.
  intros Ht. unfold V. replace (Z.to_nat t) with 0%nat by lia. done.
Qed.

(** [V] satisfies the recurrence. *)
Lemma V_unfold h t :
  0 < t →
  V h t =
  foldr Z.max (V h (t - 1))
    ((λ b : string * config,
        V h (t - time b.2) + earning b.2 * Z.max (h - t) 0)
     <$> filter (λ b : string * config, time b.2 ≤ t) BUILDINGS).
Proof.
  intros Ht. unfold V at 1.
  destruct (Z.to_nat t) as [|n] eqn:Hn; [lia|].
  simpl. replace (t <=? 0) with false by lia.
  apply foldr_max_ext.
  - apply (V_fuel_enough h (Z.to_nat (t - 1))); lia.
  - eapply Forall_impl; [apply (filter_catalog t)|].
    intros [b cfg]; simpl. intros [Hd He].
    f_equal. apply (V_fuel_enough h (Z.to_nat (t - time cfg))); lia.
Qed.

Lemma V_step_le h t : V h t ≤ V h (t + 1).
Proof.
  destruct (Z.le_gt_cases (t + 1) 0) as [Ht|Ht].
  - rewrite !V_nonpos by lia. done.
  - rewrite (V_unfold h (t + 1)) by lia.
    replace (t + 1 - 1) with t by lia. apply foldr_max_ge_base.
Qed.

Lemma V_mono_t h t t' : t ≤ t' → V h t ≤ V h t'.
Proof.
  intros Ht. replace t' with (t + Z.of_nat (Z.to_nat (t' - t))) by lia.
  induction (Z.to_nat (t' - t)) as [|n IH].
  - replace (t + Z.of_nat 0) with t by lia. done.
  - etrans; [apply IH|].
    replace (t + Z.of_nat (S n)) with (t + Z.of_nat n + 1) by lia.
    apply V_step_le.
Qed.

Lemma V_build_le h t b cfg :
  (b, cfg) ∈ BUILDINGS → time cfg ≤ t →
  V h (t - time cfg) + earning cfg * Z.max (h - t) 0 ≤ V h t.
Proof.
  intros Hin Ht. destruct (BUILDINGS_positive b cfg Hin) as [Hd He].
  rewrite (V_unfold h t) by lia.
  apply foldr_max_ge_elem.
  apply list_elem_of_fmap. exists (b, cfg). split; [done|].
  by apply list_elem_of_filter.
Qed.

Lemma V_fuel_mono_h fuel : ∀ h h' t,
  h ≤ h' → V_fuel fuel h t ≤ V_fuel fuel h' t.
Proof.
  induction fuel as [|fuel IH]; intros h h' t Hh; simpl; [done|].
  destruct (t <=? 0); [done|].
  apply foldr_max_mono; [by apply IH|].
  eapply Forall_impl; [apply (filter_catalog t)|].
  intros [b cfg]; simpl. intros [Hd He].
  specialize (IH h h' (t - time cfg) Hh).
  assert (earning cfg * Z.max (h - t) 0 ≤ earning cfg * Z.max (h' - t) 0)
    by (apply Z.mul_le_mono_nonneg_l; lia).
  lia.
Qed.

Lemma V_mono_h h h' t : h ≤ h' → V h t ≤ V h' t.
Proof. apply V_fuel_mono_h. Qed.

Lemma V_nonneg h t : 0 ≤ V h t.
Proof.
  destruct (Z.le_gt_cases t 0) as [Ht|Ht].
  - by rewrite V_nonpos.
  - rewrite <- (V_nonpos h 0) at 1 by done. apply V_mono_t. lia.
Qed.

(** ** Dict operations *)

Lemma getitem_key {V} k (d : list (string * V)) :
  k ∈ d.*1 → ∃ v, getitem k d = Ok v.
Proof.
  induction d as [|[k' v'] d IH]; simpl.
  - by intros ?%elem_of_nil.
  - destruct (String.eqb_spec k' k) as [->|Hne]; [eauto|].
    intros [?|?]%elem_of_cons; [congruence|auto].
Qed.

Lemma setitem_keys {V} k (v : V) (d : list (string * V)) :
  k ∈ d.*1 → (setitem k v d).*1 = d.*1.
Proof.
  induction d as [|[k' v'] d IH]; simpl.
  - by intros ?%elem_of_nil.
  - destruct (String.eqb_spec k' k) as [->|Hne]; [done|].
    intros [?|?]%elem_of_cons; [congruence|]. csimpl. f_equal. auto.
Qed.

Lemma getitem_setitem {V} k k' (v : V) (d : list (string * V)) :
  k ∈ d.*1 →
  getitem k' (setitem k v d) = if decide (k' = k) then Ok v else getitem k' d.
Proof.
  induction d as [|[k0 v0] d IH]; simpl.
  - by intros ?%elem_of_nil.
  - intros Hk. destruct (String.eqb_spec k0 k) as [->|Hne]; simpl.
    + destruct (String.eqb_spec k k') as [->|Hne'].
      * by rewrite decide_True.
      * by rewrite decide_False.
    + apply elem_of_cons in Hk as [?|Hk]; [congruence|].
      destruct (String.eqb_spec k0 k') as [->|Hne']; [|auto].
      by rewrite decide_False.
Qed.

Lemma setitem_elem_of {V} k (v : V) (d : list (string * V)) kv :
  kv ∈ setitem k v d → kv ∈ d ∨ kv.2 = v.
Proof.
  induction d as [|[k0 v0] d IH]; simpl.
  - intros ->%list_elem_of_singleton. by right.
  - destruct (String.eqb k0 k).
    + intros [->|?]%elem_of_cons; [by right|]. left. by right.
    + intros [->|?]%elem_of_cons; [left; left|].
      destruct (IH H); [left; by right|by right].
Qed.

Lemma dict_iadd_catalog b (c : dict) :
  in_catalog_order c → b ∈ BUILDINGS.*1 →
  ∃ c', dict_iadd b 1 c = Ok c' ∧ in_catalog_order c'.
Proof.
  unfold in_catalog_order, dict_iadd. intros Hc Hb. rewrite <- Hc in Hb.
  destruct (getitem_key b c Hb) as [v ->]. simpl.
  eexists. split; [done|]. by rewrite setitem_keys.
Qed.

Lemma dict_iadd_keys b (c c' : dict) :
  dict_iadd b 1 c = Ok c' → c'.*1 = c.*1 ∧ b ∈ c.*1.
Proof.
  unfold dict_iadd. destruct (getitem b c) as [v|e] eqn:Hb; simpl; [|done].
  intros [= <-]. apply getitem_Ok_elem_of in Hb.
  assert (b ∈ c.*1) by (apply list_elem_of_fmap; by exists (b, v)).
  split; [by apply setitem_keys|done].
Qed.

Lemma dict_iadd_inj b (c1 c2 c' : dict) :
  dict_iadd b 1 c1 = Ok c' → dict_iadd b 1 c2 = Ok c' → c1 = c2.
Proof.
  unfold dict_iadd. revert c2 c'.
  induction c1 as [|[k1 v1] c1 IH]; intros c2 c'; [done|].
  destruct c2 as [|[k2 v2] c2]; [done|]. simpl.
  destruct (String.eqb_spec k1 b) as [->|Hne1];
    destruct (String.eqb_spec k2 b) as [->|Hne2]; simpl.
  - intros [= <-] [= ? ?]. f_equal; [f_equal; lia|done].
  - intros [= <-]. destruct (getitem b c2); simpl; [|done].
    intros [= ? ? ?]. congruence.
  - destruct (getitem b c1); simpl; [|done].
    intros [= <-] [= ? ? ?]. congruence.
  - destruct (getitem b c1) as [w1|] eqn:H1; simpl; [|done].
    destruct (getitem b c2) as [w2|] eqn:H2; simpl; [|done].
    intros [= <-] [= -> -> Hs]. f_equal.
    apply (IH c2 (setitem b (w1 + 1) c1)); rewrite ?H1, ?H2; simpl;
      congruence.
Qed.

Lemma dict_iadd_nonneg b (c c' : dict) :
  Forall (λ kv : string * Z, 0 ≤ kv.2) c →
  dict_iadd b 1 c = Ok c' →
  Forall (λ kv : string * Z, 0 ≤ kv.2) c'.
Proof.
  unfold dict_iadd. intros Hc.
  destruct (getitem b c) as [v|e] eqn:Hb; simpl; [|done]. intros [= <-].
  apply getitem_Ok_elem_of in Hb.
  rewrite Forall_forall in Hc. pose proof (Hc _ Hb) as Hv. simpl in Hv.
  apply Forall_forall. intros kv [Hin| ->]%setitem_elem_of; [auto|lia].
Qed.

Lemma count_of_iadd b b' (c c' : dict) :
  dict_iadd b 1 c = Ok c' →
  count_of b' c' = if decide (b' = b) then count_of b c + 1 else count_of b' c.
Proof.
  intros Hc. destruct (dict_iadd_keys b c c' Hc) as [_ Hb]. revert Hc.
  unfold dict_iadd, count_of.
  destruct (getitem b c) as [v|e] eqn:Hv; simpl; [|done]. intros [= <-].
  rewrite getitem_setitem by done. by destruct (decide (b' = b)).
Qed.

Lemma dict_eqb_refl (c : dict) : NoDup c.*1 → dict_eqb c c = true.
Proof.
  intros Hnd. unfold dict_eqb. rewrite Nat.eqb_refl. simpl.
  apply forallb_forall. intros [k v] Hin%list_elem_of_In.
  rewrite (elem_of_getitem k c v) by done. apply Z.eqb_refl.
Qed.

Lemma counts_ext (a b : dict) :
  a.*1 = b.*1 → NoDup a.*1 →
  (∀ k, k ∈ a.*1 → count_of k a = count_of k b) → a = b.
Proof.
  revert b. induction a as [|[k v] a IH]; intros [|[k' v'] b]; try done.
  csimpl. intros [= <- Hkeys] [Hk Hnd]%NoDup_cons Hcount.
  assert (v = v') as <-.
  { specialize (Hcount k ltac:(left)). unfold count_of in Hcount.
    simpl in Hcount. by rewrite String.eqb_refl in Hcount. }
  f_equal. apply IH; [done..|]. intros k0 Hk0.
  specialize (Hcount k0 ltac:(by right)). unfold count_of in *.
  simpl in Hcount.
  destruct (String.eqb_spec k k0) as [->|Hne]; [done|]. done.
Qed.

Lemma dict_eqb_counts (a b : dict) k :
  NoDup a.*1 → dict_eqb a b = true → k ∈ a.*1 → count_of k a = count_of k b.
Proof.
  intros Hnd [_ Hall]%andb_prop ([k' v] & -> & Hin)%list_elem_of_fmap.
  rewrite forallb_forall in Hall.
  specialize (Hall (k', v) ltac:(by apply list_elem_of_In)). simpl in *.
  unfold count_of. rewrite (elem_of_getitem k' a v) by done.
  destruct (getitem k' b); [|done]. by apply Z.eqb_eq in Hall.
Qed.

Lemma catalog_order_NoDup (c : dict) : in_catalog_order c → NoDup c.*1.
Proof. intros ->. apply BUILDINGS_keys_NoDup. Qed.

Lemma dict_eqb_catalog (a b : dict) :
  in_catalog_order a → in_catalog_order b →
  dict_eqb a b = true ↔ a = b.
Proof.
  intros Ha Hb. split.
  - intros Heq. apply counts_ext.
    + by rewrite Ha, Hb.
    + by apply catalog_order_NoDup.
    + intros k Hk. apply dict_eqb_counts; [by apply catalog_order_NoDup|done..].
  - intros <-. by apply dict_eqb_refl, catalog_order_NoDup.
Qed.

Lemma list_contains_elem_of (x : dict) (l : list dict) :
  in_catalog_order x → x ∈ l → list_contains x l = true.
Proof.
  intros Hx Hin. unfold list_contains. apply existsb_exists.
  exists x. split; [by apply list_elem_of_In|].
  by apply dict_eqb_refl, catalog_order_NoDup.
Qed.

(** ** The loops over the previous solutions *)

Lemma incremented_elem_of b prev news c' :
  incremented b prev news → c' ∈ news →
  ∃ c, c ∈ prev ∧ dict_iadd b 1 c = Ok c'.
Proof.
  intros H. induction H as [|c x prev news Hc _ IH].
  - by intros ?%elem_of_nil.
  - intros [->|Hin]%elem_of_cons.
    + exists c. split; [left|done].
    + destruct (IH Hin) as (c0 & ? & ?). exists c0. split; [by right|done].
Qed.

Lemma incremented_NoDup b prev news :
  incremented b prev news → NoDup prev → NoDup news.
Proof.
  intros H. induction H as [|c c' prev news Hc Hrest IH].
  - constructor.
  - intros [Hnotin Hnd]%NoDup_cons. apply NoDup_cons. split; [|auto].
    intros (c0 & Hin & Hc0)%(incremented_elem_of b prev); [|done].
    by rewrite (dict_iadd_inj b c c0 c' Hc Hc0) in Hnotin.
Qed.

Lemma for_each_replace b (prev acc : list dict) :
  Forall in_catalog_order prev → b ∈ BUILDINGS.*1 →
  ∃ news,
    incremented b prev news ∧
    for_each prev acc
      (λ best_solutions prev_solution,
         let! new_solution := dict_iadd b 1 prev_solution in
         Ok (best_solutions ++ [new_solution])) = Ok (acc ++ news).
Proof.
  intros Hprev Hb. revert acc.
  induction Hprev as [|c prev Hc _ IH]; intros acc.
  - exists []. split; [constructor|]. simpl. by rewrite app_nil_r.
  - destruct (dict_iadd_catalog b c Hc Hb) as (c' & Hc' & _).
    destruct (IH (acc ++ [c'])) as (news & Hnews & Hrun).
    exists (c' :: news). split; [by constructor|].
    simpl. rewrite Hc'. simpl. rewrite Hrun. by rewrite <- app_assoc.
Qed.

Lemma extend_replace_ok b (prev : list dict) :
  Forall in_catalog_order prev → b ∈ BUILDINGS.*1 →
  ∃ news, incremented b prev news ∧ extend_replace b prev = Ok news.
Proof.
  intros Hprev Hb.
  destruct (for_each_replace b prev [] Hprev Hb) as (news & ? & ?).
  by exists news.
Qed.

Lemma extend_merge_ok b (prev best : list dict) :
  Forall in_catalog_order prev → b ∈ BUILDINGS.*1 →
  ∃ best',
    extend_merge b prev best = Ok best' ∧
    best ⊆ best' ∧
    (∀ x, x ∈ best' → x ∈ best ∨ ∃ c, c ∈ prev ∧ dict_iadd b 1 c = Ok x) ∧
    (NoDup best → NoDup best').
Proof.
  intros Hprev Hb. unfold extend_merge. revert best.
  induction Hprev as [|c prev Hc _ IH]; intros best.
  - exists best. simpl. repeat split; auto.
  - destruct (dict_iadd_catalog b c Hc Hb) as (c' & Hc' & Hk').
    simpl. rewrite Hc'. simpl.
    destruct (list_contains c' best) eqn:Hin.
    + destruct (IH best) as (best' & Hrun & Hsub & Hfrom & Hnd).
      exists best'. split; [done|]. split; [done|]. split; [|done].
      intros x Hx. destruct (Hfrom x Hx) as [?|(c0 & ? & ?)]; [by left|].
      right. exists c0. split; [by right|done].
    + destruct (IH (best ++ [c'])) as (best' & Hrun & Hsub & Hfrom & Hnd).
      exists best'. split; [done|]. split.
      { intros x Hx. apply Hsub, elem_of_app. by left. }
      split.
      { intros x Hx. destruct (Hfrom x Hx) as [Hx'|(c0 & ? & ?)].
        - apply elem_of_app in Hx' as [?| ->%list_elem_of_singleton];
            [by left|].
          right. exists c. split; [left|done].
        - right. exists c0. split; [by right|done]. }
      intros Hbest. apply Hnd. apply NoDup_app. split; [done|].
      split; [|apply NoDup_singleton].
      intros x Hx ->%list_elem_of_singleton.
      by rewrite (list_contains_elem_of c' best) in Hin.
Qed.

(** ** The table *)

Lemma py_index_lookup {A} (l : list A) (i : nat) x :
  l !! i = Some x → py_index l (Z.of_nat i) = Ok x.
Proof.
  intros Hx. pose proof (lookup_lt_Some _ _ _ Hx) as Hlt.
  unfold py_index.
  replace (Z.of_nat i <? 0) with false by lia.
  replace (0 <=? Z.of_nat i) with true by lia.
  replace (Z.of_nat i <? Z.of_nat (length l)) with true by lia.
  simpl. by rewrite Nat2Z.id, Hx.
Qed.

Lemma py_setitem_insert {A} (l : list A) (i : nat) x :
  (i < length l)%nat → py_setitem l (Z.of_nat i) x = Ok (<[i := x]> l).
Proof.
  intros Hlt. unfold py_setitem.
  replace (Z.of_nat i <? 0) with false by lia.
  replace (0 <=? Z.of_nat i) with true by lia.
  replace (Z.of_nat i <? Z.of_nat (length l)) with true by lia.
  simpl. by rewrite Nat2Z.id.
Qed.

Lemma catalog_entry_name b cfg : (b, cfg) ∈ BUILDINGS → b ∈ BUILDINGS.*1.
Proof. intros H. apply list_elem_of_fmap. by exists (b, cfg). Qed.

Lemma sols_ok_incremented h i pp prev b cfg news :
  (b, cfg) ∈ BUILDINGS →
  sols_ok h i pp prev →
  incremented b prev news →
  sols_ok h (i + time cfg) (pp + earning cfg * (h - (i + time cfg))) news.
Proof.
  intros Hb [Hne Hnd Hkeys Hsched] Hinc. split.
  - destruct Hinc; [done|discriminate].
  - by apply (incremented_NoDup b prev).
  - apply Forall_forall. intros c' (c & Hc & Hcc')%(incremented_elem_of b prev);
      [|done].
    rewrite Forall_forall in Hkeys. unfold in_catalog_order.
    destruct (dict_iadd_keys b c c' Hcc') as [-> _]. by apply Hkeys.
  - apply Forall_forall. intros c' (c & Hc & Hcc')%(incremented_elem_of b prev);
      [|done].
    rewrite Forall_forall in Hsched.
    by apply (Sched_build h i c pp b cfg c'); [|apply Hsched|].
Qed.

Lemma try_building_ok h k dp t mp best b cfg :
  t = Z.of_nat k + 1 →
  table_ok h k dp → t ≤ h →
  sols_ok h t mp best →
  (b, cfg) ∈ BUILDINGS →
  ∃ best',
    try_building h dp t (mp, best) (b, cfg) =
      Ok (if decide (time cfg ≤ t)
          then Z.max mp (V h (t - time cfg) + earning cfg * Z.max (h - t) 0)
          else mp, best') ∧
    sols_ok h t
      (if decide (time cfg ≤ t)
       then Z.max mp (V h (t - time cfg) + earning cfg * Z.max (h - t) 0)
       else mp) best'.
Proof.
  intros Ht [Hlen Hslots] Hth Hacc Hb.
  destruct (BUILDINGS_positive b cfg Hb) as [Hd He].
  pose proof (catalog_entry_name b cfg Hb) as Hname.
  unfold try_building.
  destruct (decide (time cfg ≤ t)) as [Hfit|Hfit];
    [replace (t >=? time cfg) with true by lia
    |replace (t >=? time cfg) with false by lia; by exists best].
  destruct (Hslots (Z.to_nat (t - time cfg)) ltac:(lia))
    as ([pp prev] & Hlook & Hpp & Hprev).
  rewrite Z2Nat.id in Hpp, Hprev by lia. simpl in Hpp, Hprev.
  apply py_index_lookup in Hlook. rewrite Z2Nat.id in Hlook by lia.
  rewrite Hlook. simpl. rewrite (Z.max_l (h - t) 0) by lia. rewrite <- Hpp.
  pose proof (sols_keys _ _ _ _ Hprev) as Hpk.
  pose proof (sols_sched _ _ _ _ Hprev) as Hps.
  rewrite Forall_forall in Hpk, Hps.
  assert (Hkey1 : ∀ c x, c ∈ prev → dict_iadd b 1 c = Ok x →
            in_catalog_order x).
  { intros c x Hc Hx. unfold in_catalog_order.
    destruct (dict_iadd_keys b c x Hx) as [-> _]. by apply Hpk. }
  assert (Hsch1 : ∀ c x, c ∈ prev → dict_iadd b 1 c = Ok x →
            Sched h t x (pp + earning cfg * (h - t))).
  { intros c x Hc Hx.
    pose proof (Sched_build h (t - time cfg) c pp b cfg x Hb (Hps c Hc) Hx)
      as H.
    by replace (t - time cfg + time cfg) with t in H by lia. }
  destruct (Z.gtb_spec (pp + earning cfg * (h - t)) mp) as [Hgt|Hle].
  - destruct (extend_replace_ok b prev (sols_keys _ _ _ _ Hprev) Hname)
      as (news & Hnews & ->). simpl.
    rewrite Z.max_r by lia. exists news. split; [done|].
    pose proof (sols_ok_incremented h (t - time cfg) pp prev b cfg news
                  Hb Hprev Hnews) as H.
    by replace (t - time cfg + time cfg) with t in H by lia.
  - rewrite Z.max_l by lia.
    destruct (Z.eqb_spec (pp + earning cfg * (h - t)) mp) as [Heq|Hne];
      [|by exists best].
    destruct (extend_merge_ok b prev best (sols_keys _ _ _ _ Hprev) Hname)
      as (best' & -> & Hsub & Hfrom & Hnd). simpl.
    exists best'. split; [done|].
    destruct Hacc as [Hne Hbnd Hkeys Hsched].
    rewrite Forall_forall in Hkeys, Hsched. split.
    + intros ->. destruct best as [|x best]; [done|].
      specialize (Hsub x ltac:(left)). by apply elem_of_nil in Hsub.
    + auto.
    + apply Forall_forall. intros x [Hx|(c & Hc & Hcx)]%Hfrom; eauto.
    + apply Forall_forall. intros x [Hx|(c & Hc & Hcx)]%Hfrom; [auto|].
      rewrite <- Heq. eauto.
Qed.

Lemma foldr_max_base (a x : Z) (l : list Z) :
  foldr Z.max (Z.max a x) l = Z.max x (foldr Z.max a l).
Proof. induction l as [|y l IH]; simpl; lia. Qed.

(** The loop over the catalog, from any point of the catalog on. *)
Lemma for_each_buildings_ok h k dp t (bs : list (string * config)) :
  t = Z.of_nat k + 1 →
  table_ok h k dp → t ≤ h →
  bs ⊆ BUILDINGS →
  ∀ mp best,
    sols_ok h t mp best →
    ∃ best',
      let mp' :=
        foldr Z.max mp
          ((λ b : string * config,
              V h (t - time b.2) + earning b.2 * Z.max (h - t) 0)
           <$> filter (λ b : string * config, time b.2 ≤ t) bs) in
      for_each bs (mp, best) (try_building h dp t) = Ok (mp', best') ∧
      sols_ok h t mp' best'.
Proof.
  intros Ht Hdp Hth. induction bs as [|[b cfg] bs IH]; intros Hbs mp best Hacc.
  - exists best. by split.
  - destruct (try_building_ok h k dp t mp best b cfg Ht Hdp Hth Hacc)
      as (best1 & Hrun1 & Hok1); [apply Hbs; left|].
    destruct (IH ltac:(intros x Hx; apply Hbs; by right) _ _ Hok1)
      as (best' & Hrun & Hok).
    exists best'. cbn [for_each]. rewrite Hrun1. cbn [bind].
    rewrite filter_cons. cbn [snd] in *.
    destruct (decide (time cfg ≤ t)); csimpl in *;
      rewrite ?foldr_max_base in *; by split.
Qed.

Lemma sols_ok_idle h t p sols : sols_ok h t p sols → sols_ok h (t + 1) p sols.
Proof.
  intros [Hne Hnd Hkeys Hsched]. split; [done..|].
  eapply Forall_impl; [done|]. intros c. apply Sched_idle.
Qed.

Lemma dp_step_ok h k dp :
  table_ok h k dp → Z.of_nat k + 1 ≤ h →
  ∃ dp', dp_step h dp (Z.of_nat k + 1) = Ok dp' ∧ table_ok h (S k) dp'.
Proof.
  intros Hdp Hk. pose proof Hdp as [Hlen Hslots].
  destruct (Hslots k ltac:(lia)) as ([mp best] & Hlook & Hmp & Hbest).
  simpl in Hmp, Hbest.
  unfold dp_step. replace (Z.of_nat k + 1 - 1) with (Z.of_nat k) by lia.
  rewrite (py_index_lookup dp k (mp, best)) by done. simpl.
  destruct (for_each_buildings_ok h k dp (Z.of_nat k + 1) BUILDINGS
              eq_refl Hdp Hk ltac:(done) mp best (sols_ok_idle _ _ _ _ Hbest))
    as (best' & Hrun & Hok).
  simpl in Hrun, Hok. rewrite Hrun. simpl.
  replace (Z.of_nat k + 1) with (Z.of_nat (S k)) by lia.
  rewrite py_setitem_insert by lia.
  eexists. split; [done|]. split; [by rewrite length_insert|].
  intros i Hi. destruct (decide (i = S k)) as [->|Hne].
  - eexists. split; [apply list_lookup_insert_eq; lia|].
    split; [|by replace (Z.of_nat (S k)) with (Z.of_nat k + 1) by lia].
    simpl. rewrite (V_unfold h (Z.of_nat (S k))) by lia.
    replace (Z.of_nat (S k) - 1) with (Z.of_nat k) by lia.
    rewrite Hmp. by replace (Z.of_nat k + 1) with (Z.of_nat (S k)) by lia.
  - rewrite list_lookup_insert_ne by done. apply Hslots. lia.
Qed.

Lemma for_each_steps_ok h n : ∀ k dp,
  table_ok h k dp → Z.of_nat (k + n) ≤ h →
  ∃ dp',
    for_each ((λ j : nat, 1 + Z.of_nat j) <$> seq k n) dp (dp_step h)
      = Ok dp' ∧
    table_ok h (k + n) dp'.
Proof.
  induction n as [|n IH]; intros k dp Hdp Hk.
  - exists dp. simpl. by rewrite Nat.add_0_r.
  - destruct (dp_step_ok h k dp Hdp ltac:(lia)) as (dp1 & Hstep & Hdp1).
    destruct (IH (S k) dp1 Hdp1 ltac:(lia)) as (dp' & Hrun & Hdp').
    exists dp'. csimpl. replace (1 + Z.of_nat k) with (Z.of_nat k + 1) by lia.
    rewrite Hstep. simpl. split; [done|].
    by replace (k + S n)%nat with (S k + n)%nat by lia.
Qed.

Lemma sols_ok_start h : sols_ok h 0 0 [initial_solution].
Proof.
  split.
  - done.
  - apply NoDup_singleton.
  - repeat constructor.
  - repeat constructor.
Qed.

Lemma table_ok_start h :
  0 ≤ h → table_ok h 0 (py_list_repeat (0, [initial_solution]) (h + 1)).
Proof.
  intros Hh. unfold py_list_repeat. split.
  - rewrite length_replicate. lia.
  - intros i Hi. replace i with 0%nat by lia.
    exists (0, [initial_solution]). split.
    + apply lookup_replicate_2. lia.
    + split; [by rewrite V_nonpos|apply sols_ok_start].
Qed.

(** On a horizon that is not negative the optimizer returns slot [h] of a
    table that is filled in. *)
Lemma solve_ok h :
  0 ≤ h → ∃ slot, solve_dp_all_solutions h = Ok slot ∧ slot_ok h h slot.
Proof.
  intros Hh. unfold solve_dp_all_solutions, py_range.
  replace (h + 1 - 1) with h by lia.
  destruct (for_each_steps_ok h (Z.to_nat h) 0 _ (table_ok_start h Hh)
              ltac:(lia)) as (dp & Hrun & [Hlen Hslots]).
  rewrite Hrun. simpl.
  destruct (Hslots (Z.to_nat h) ltac:(lia)) as (slot & Hlook & Hslot).
  exists slot. rewrite Z2Nat.id in Hslot by done.
  apply py_index_lookup in Hlook. rewrite Z2Nat.id in Hlook by done.
  done.
Qed.

(** ** Schedules behind the solutions *)

Lemma order_time_nonneg order : 0 ≤ order_time order.
Proof.
  induction order as [|b order IH]; simpl; [done|].
  destruct (getitem b BUILDINGS) as [cfg|] eqn:Hb; [|done].
  apply getitem_BUILDINGS, BUILDINGS_positive in Hb. lia.
Qed.

Lemma order_time_perm o1 o2 : o1 ≡ₚ o2 → order_time o1 = order_time o2.
Proof.
  induction 1 as [|x o1 o2 _ IH|x y o|o1 o2 o3 _ IH1 _ IH2]; simpl.
  - done.
  - by rewrite IH.
  - destruct (getitem x BUILDINGS), (getitem y BUILDINGS); lia.
  - congruence.
Qed.

Lemma simulate_order_snoc h order b cfg q :
  getitem b BUILDINGS = Ok cfg →
  simulate_order h order 0 = Ok q →
  simulate_order h (order ++ [b]) 0 =
  Ok (q + earning cfg * Z.max (h - (order_time order + time cfg)) 0).
Proof.
  intros Hb Hq. rewrite simulate_order_app, Hq. simpl. rewrite Hb. simpl.
  f_equal. lia.
Qed.

Lemma order_time_snoc order b cfg :
  getitem b BUILDINGS = Ok cfg →
  order_time (order ++ [b]) = order_time order + time cfg.
Proof. intros Hb. rewrite order_time_app. simpl. rewrite Hb. lia. Qed.

Lemma instances_in_iadd names b (c c' : dict) :
  NoDup names → dict_iadd b 1 c = Ok c' → 0 ≤ count_of b c →
  instances_in names c' ≡ₚ
  (if decide (b ∈ names) then [b] else []) ++ instances_in names c.
Proof.
  intros Hnd Hc Hn. unfold instances_in.
  induction Hnd as [|x names Hx Hnd IH]; [done|]. csimpl.
  rewrite IH, (count_of_iadd b x c c' Hc).
  destruct (decide (x = b)) as [->|Hne].
  - rewrite (decide_True (P := b ∈ b :: names)) by left.
    rewrite (decide_False (P := b ∈ names)) by done.
    replace (Z.to_nat (count_of b c + 1)) with (S (Z.to_nat (count_of b c)))
      by lia.
    done.
  - destruct (decide (b ∈ names)) as [Hin|Hin].
    + rewrite (decide_True (P := b ∈ x :: names)) by (by right). simpl.
      by rewrite Permutation_middle.
    + rewrite (decide_False (P := b ∈ x :: names)); [done|].
      intros [?|?]%elem_of_cons; congruence.
Qed.

Lemma canonical_instances_iadd b cfg (c c' : dict) :
  (b, cfg) ∈ BUILDINGS → dict_iadd b 1 c = Ok c' →
  Forall (λ kv : string * Z, 0 ≤ kv.2) c →
  canonical_instances c' ≡ₚ canonical_instances c ++ [b].
Proof.
  intros Hb Hc Hnn. unfold canonical_instances.
  rewrite (instances_in_iadd _ b c c' BUILDINGS_keys_NoDup Hc)
    by (by apply count_of_nonneg).
  rewrite decide_True by (by apply (catalog_entry_name b cfg)).
  by rewrite Permutation_app_comm.
Qed.

Lemma canonical_instances_start : canonical_instances initial_solution = [].
Proof. vm_compute. reflexivity. Qed.

Lemma initial_solution_nonneg :
  Forall (λ kv : string * Z, 0 ≤ kv.2) initial_solution.
Proof.
  apply (bool_decide_unpack
           (Forall (λ kv : string * Z, 0 ≤ kv.2) initial_solution)).
  vm_compute. exact I.
Qed.

(** A combination that the table credits with [p] at a step [t ≤ h] has an
    order of construction, without idle time, that takes at most [t] and
    earns at least [p]. *)
Lemma Sched_order h t c p :
  Sched h t c p → t ≤ h →
  Forall (λ kv : string * Z, 0 ≤ kv.2) c ∧
  ∃ order q,
    order ≡ₚ canonical_instances c ∧
    order_time order ≤ t ∧
    simulate_order h order 0 = Ok q ∧ p ≤ q.
Proof.
  induction 1 as [|t c p _ IH|t c p b cfg c' Hb _ IH Hc']; intros Ht.
  - split; [apply initial_solution_nonneg|].
    exists [], 0. by rewrite canonical_instances_start.
  - destruct (IH ltac:(lia)) as (Hnn & order & q & Hperm & Htime & Hq & Hpq).
    split; [done|]. exists order, q. repeat split; [done|lia|done..].
  - destruct (BUILDINGS_positive b cfg Hb) as [Hd He].
    destruct (IH ltac:(lia)) as (Hnn & order & q & Hperm & Htime & Hq & Hpq).
    split; [by apply (dict_iadd_nonneg b c)|].
    pose proof (proj2 (getitem_BUILDINGS b cfg) Hb) as Hget.
    exists (order ++ [b]),
      (q + earning cfg * Z.max (h - (order_time order + time cfg)) 0).
    split; [|split; [|split]].
    + rewrite (canonical_instances_iadd b cfg c c') by done.
      by rewrite Hperm.
    + rewrite (order_time_snoc order b cfg) by done. lia.
    + by apply simulate_order_snoc.
    + assert (earning cfg * (h - (t + time cfg)) ≤
              earning cfg * Z.max (h - (order_time order + time cfg)) 0)
        by (apply Z.mul_le_mono_nonneg_l; lia).
      lia.
Qed.

(** No order of construction that fits in the horizon earns more than the
    recurrence allows for the time it takes. *)
Lemma simulate_order_le_V h order :
  Forall (λ b, b ∈ BUILDINGS.*1) order →
  order_time order ≤ h →
  ∃ q, simulate_order h order 0 = Ok q ∧ q ≤ V h (order_time order).
Proof.
  induction order as [|b order IH] using rev_ind; intros Hnames Htime.
  - exists 0. split; [done|]. apply V_nonneg.
  - apply Forall_app in Hnames as [Hnames Hb].
    apply Forall_singleton, catalog_name_getitem in Hb as [cfg Hb].
    pose proof (proj1 (getitem_BUILDINGS b cfg) Hb) as Hin.
    destruct (BUILDINGS_positive b cfg Hin) as [Hd He].
    rewrite (order_time_snoc order b cfg) in * by done.
    destruct (IH Hnames ltac:(lia)) as (q & Hq & Hle).
    eexists. split; [by apply simulate_order_snoc|].
    pose proof (V_build_le h (order_time order + time cfg) b cfg Hin) as HV.
    replace (order_time order + time cfg - time cfg) with (order_time order)
      in HV by lia.
    pose proof (order_time_nonneg order). lia.
Qed.

Lemma Forall_catalog_perm (o1 o2 : list string) :
  o1 ≡ₚ o2 → Forall (λ b, b ∈ BUILDINGS.*1) o2 →
  Forall (λ b, b ∈ BUILDINGS.*1) o1.
Proof.
  intros Hperm. rewrite !Forall_forall. intros H b Hb. apply H.
  by rewrite <- Hperm.
Qed.

(** Everything the statements need about one returned combination. *)
Lemma solution_facts h p (sols : list dict) c :
  slot_ok h h (p, sols) → c ∈ sols →
  in_catalog_order c ∧
  Forall (λ kv : string * Z, 0 ≤ kv.2) c ∧
  total_time c ≤ h ∧
  (∃ order, order ≡ₚ canonical_instances c ∧
            simulate_order h order 0 = Ok p) ∧
  (∃ q, simulate_order h (canonical_instances c) 0 = Ok q ∧ q ≤ p).
Proof.
  intros [Hp [_ _ Hkeys Hsched]] Hc. simpl in *.
  rewrite Forall_forall in Hkeys, Hsched.
  destruct (Sched_order h h c p (Hsched c Hc) ltac:(lia))
    as (Hnn & order & q & Hperm & Htime & Hq & Hpq).
  pose proof (canonical_instances_catalog c) as Hcat.
  pose proof (Forall_catalog_perm _ _ Hperm Hcat) as Hocat.
  assert (Htt : total_time c = order_time order).
  { rewrite <- order_time_canonical by done. symmetry.
    by apply order_time_perm. }
  split; [auto|]. split; [done|]. split; [lia|]. split.
  - exists order. split; [done|].
    destruct (simulate_order_le_V h order Hocat Htime) as (q' & Hq' & Hle).
    rewrite Hq in Hq'. injection Hq' as <-.
    pose proof (V_mono_t h (order_time order) h Htime).
    rewrite Hq. f_equal. lia.
  - destruct (simulate_order_le_V h (canonical_instances c) Hcat)
      as (q' & Hq' & Hle).
    { rewrite order_time_canonical by done. lia. }
    exists q'. split; [done|].
    rewrite order_time_canonical in Hle by done.
    pose proof (V_mono_t h (total_time c) h ltac:(lia)). lia.
Qed.

(** * The optimizer *)

(** C1: on a horizon [h] that is not negative the optimizer returns as
    maximum profit the value [V h h] of the reference recurrence, where
    [V h 0 = 0] and [V h t], for [1 <= t <= h], is the maximum of
    [V h (t-1)] and of [V h (t - duration b) + rate b * max (h - t) 0] over
    the building types [b] of the catalog with [duration b <= t]. *)
Theorem solve_max_profit_is_recurrence (h : Z) :
  0 ≤ h →
  (∃ sols, solve_dp_all_solutions h = Ok (V h h, sols)) ∧
  V h 0 = 0 ∧
  ∀ t, 1 ≤ t ≤ h →
    V h t =
    foldr Z.max (V h (t - 1))
      ((λ b : string * config,
          V h (t - time b.2) + earning b.2 * Z.max (h - t) 0)
       <$> filter (λ b : string * config, time b.2 ≤ t) BUILDINGS).
Proof.
  intros Hh. split; [|split].
  - destruct (solve_ok h Hh) as ([p sols] & Hrun & Hp & _).
    exists sols. simpl in Hp. by rewrite Hrun, Hp.
  - by apply V_nonpos.
  - intros t Ht. apply V_unfold. lia.
Qed.

Lemma solve_max_profit_is_recurrence_witness :
  0 ≤ 13 ∧
  (∃ sols, solve_dp_all_solutions 13 = Ok (V 13 13, sols)) ∧
  V 13 0 = 0 ∧
  ∀ t, 1 ≤ t ≤ 13 →
    V 13 t =
    foldr Z.max (V 13 (t - 1))
      ((λ b : string * config,
          V 13 (t - time b.2) + earning b.2 * Z.max (13 - t) 0)
       <$> filter (λ b : string * config, time b.2 ≤ t) BUILDINGS).
Proof.
  split; [lia|]. apply (solve_max_profit_is_recurrence 13). lia.
Defined.

(** C2: on a horizon that is not negative the returned solution list is
    not empty, and any two of its entries at different positions are
    different combinations: they are unequal as dicts and there is a
    building type to which they give different counts. *)
Theorem solve_solutions_nonempty_distinct (h : Z) :
  0 ≤ h →
  ∃ p sols,
    solve_dp_all_solutions h = Ok (p, sols) ∧
    sols ≠ [] ∧
    ∀ (i j : nat) (c1 c2 : dict),
      i ≠ j → sols !! i = Some c1 → sols !! j = Some c2 →
      dict_eqb c1 c2 = false ∧
      ∃ b, b ∈ BUILDINGS.*1 ∧ count_of b c1 ≠ count_of b c2.
Proof.
  intros Hh. destruct (solve_ok h Hh) as ([p sols] & Hrun & _ & Hok).
  destruct Hok as [Hne Hnd Hkeys _]. simpl in *.
  exists p, sols. split; [done|]. split; [done|].
  intros i j c1 c2 Hij H1 H2.
  assert (Hneq : c1 ≠ c2).
  { intros <-. apply Hij. by apply (NoDup_lookup sols i j c1). }
  rewrite Forall_forall in Hkeys.
  pose proof (Hkeys c1 (list_elem_of_lookup_2 _ _ _ H1)) as Hk1.
  pose proof (Hkeys c2 (list_elem_of_lookup_2 _ _ _ H2)) as Hk2.
  split.
  - destruct (dict_eqb c1 c2) eqn:Heq; [|done].
    by apply dict_eqb_catalog in Heq.
  - assert (Hex : Exists (λ b, count_of b c1 ≠ count_of b c2) BUILDINGS.*1).
    { apply not_Forall_Exists; [apply _|]. intros Hall. apply Hneq.
      apply counts_ext.
      - by rewrite Hk1, Hk2.
      - by apply catalog_order_NoDup.
      - rewrite Hk1. by apply Forall_forall. }
    apply Exists_exists in Hex as (b & Hb & Hcount). by exists b.
Qed.

Lemma solve_solutions_nonempty_distinct_witness :
  0 ≤ 5 ∧
  ∃ p sols,
    solve_dp_all_solutions 5 = Ok (p, sols) ∧
    sols ≠ [] ∧
    ∀ (i j : nat) (c1 c2 : dict),
      i ≠ j → sols !! i = Some c1 → sols !! j = Some c2 →
      dict_eqb c1 c2 = false ∧
      ∃ b, b ∈ BUILDINGS.*1 ∧ count_of b c1 ≠ count_of b c2.
Proof.
  split; [lia|]. apply (solve_solutions_nonempty_distinct 5). lia.
Defined.

(** C3: on a horizon that is not negative every returned combination has
    an order of its building instances whose back-to-back simulation from
    time 0, each instance earning [rate * max (h - finish_time) 0], yields
    exactly the returned maximum profit. *)
Theorem solve_solutions_have_optimal_order (h : Z) :
  0 ≤ h →
  ∃ p sols,
    solve_dp_all_solutions h = Ok (p, sols) ∧
    ∀ c, c ∈ sols →
      ∃ order,
        order ≡ₚ canonical_instances c ∧
        simulate_order h order 0 = Ok p.
Proof.
  intros Hh. destruct (solve_ok h Hh) as ([p sols] & Hrun & Hok).
  exists p, sols. split; [done|]. intros c Hc.
  by destruct (solution_facts h p sols c Hok Hc) as (_ & _ & _ & Horder & _).
Qed.

Lemma solve_solutions_have_optimal_order_witness :
  0 ≤ 13 ∧
  ∃ p sols,
    solve_dp_all_solutions 13 = Ok (p, sols) ∧
    ∀ c, c ∈ sols →
      ∃ order,
        order ≡ₚ canonical_instances c ∧
        simulate_order 13 order 0 = Ok p.
Proof.
  split; [lia|]. apply (solve_solutions_have_optimal_order 13). lia.
Defined.

(** C4: the maximum profit does not decrease with the horizon: for
    [h >= 1] the optimizer returns on [h] at least what it returns on
    [h - 1]. *)
Theorem solve_max_profit_monotone (h : Z) :
  1 ≤ h →
  ∃ p sols p' sols',
    solve_dp_all_solutions h = Ok (p, sols) ∧
    solve_dp_all_solutions (h - 1) = Ok (p', sols') ∧
    p' ≤ p.
Proof.
  intros Hh.
  destruct (solve_ok h ltac:(lia)) as ([p sols] & Hrun & Hp & _).
  destruct (solve_ok (h - 1) ltac:(lia)) as ([p' sols'] & Hrun' & Hp' & _).
  simpl in *. exists p, sols, p', sols'. split; [done|]. split; [done|].
  rewrite Hp, Hp'.
  etrans; [apply (V_mono_h (h - 1) h); lia|]. apply V_mono_t. lia.
Qed.

Lemma solve_max_profit_monotone_witness :
  1 ≤ 9 ∧
  ∃ p sols p' sols',
    solve_dp_all_solutions 9 = Ok (p, sols) ∧
    solve_dp_all_solutions (9 - 1) = Ok (p', sols') ∧
    p' ≤ p.
Proof.
  split; [lia|]. apply (solve_max_profit_monotone 9). lia.
Defined.

(** C7: on a horizon that is not negative the evaluator, which follows
    the catalog order on every returned combination, never reports more
    profit than the optimizer's maximum. *)
Theorem validate_profit_le_max_profit (h : Z) :
  0 ≤ h →
  ∃ p sols,
    solve_dp_all_solutions h = Ok (p, sols) ∧
    ∀ c, c ∈ sols →
      ∃ is_valid profit message,
        validate_solution h c = Ok (is_valid, profit, message) ∧
        profit ≤ p.
Proof.
  intros Hh. destruct (solve_ok h Hh) as ([p sols] & Hrun & Hok).
  exists p, sols. split; [done|]. intros c Hc.
  destruct (solution_facts h p sols c Hok Hc)
    as (Hord & Hnn & _ & _ & q & Hq & Hqp).
  destruct (validate_solution_canonical h c Hord Hnn) as (q' & Hq' & Hv).
  rewrite Hq in Hq'. injection Hq' as <-.
  by exists (total_time c <=? h), q, (format_message (total_time c) h q).
Qed.

Lemma validate_profit_le_max_profit_witness :
  0 ≤ 13 ∧
  ∃ p sols,
    solve_dp_all_solutions 13 = Ok (p, sols) ∧
    ∀ c, c ∈ sols →
      ∃ is_valid profit message,
        validate_solution 13 c = Ok (is_valid, profit, message) ∧
        profit ≤ p.
Proof.
  split; [lia|]. apply (validate_profit_le_max_profit 13). lia.
Defined.

(** C10: on a horizon that is not negative every returned combination
    takes, summed over the building types, at most the horizon to build,
    and [validate_solution] reports it valid. *)
Theorem solve_solutions_fit_horizon (h : Z) :
  0 ≤ h →
  ∃ p sols,
    solve_dp_all_solutions h = Ok (p, sols) ∧
    ∀ c, c ∈ sols →
      total_time c ≤ h ∧
      ∃ profit message, validate_solution h c = Ok (true, profit, message).
Proof.
  intros Hh. destruct (solve_ok h Hh) as ([p sols] & Hrun & Hok).
  exists p, sols. split; [done|]. intros c Hc.
  destruct (solution_facts h p sols c Hok Hc)
    as (Hord & Hnn & Htime & _ & _).
  split; [done|].
  destruct (validate_solution_canonical h c Hord Hnn) as (q & _ & Hv).
  exists q, (format_message (total_time c) h q). rewrite Hv.
  by replace (total_time c <=? h) with true by lia.
Qed.

Lemma solve_solutions_fit_horizon_witness :
  0 ≤ 13 ∧
  ∃ p sols,
    solve_dp_all_solutions 13 = Ok (p, sols) ∧
    ∀ c, c ∈ sols →
      total_time c ≤ 13 ∧
      ∃ profit message, validate_solution 13 c = Ok (true, profit, message).
Proof.
  split; [lia|]. apply (solve_solutions_fit_horizon 13). lia.
Defined.

(** * The optimizer on the store of objects *)

(** ** Stores *)

Lemma Obj_bind_Ok {A B} (m : Obj.M A) (k : A → Obj.M B) σ a σ1 :
  m σ = (Ok a, σ1) → Obj.bind m k σ = k a σ1.
Proof. unfold Obj.bind. by intros ->. Qed.

Lemma keeps_refl σ : Obj.keeps σ σ.
Proof. by split. Qed.

Lemma keeps_trans σ1 σ2 σ3 :
  Obj.keeps σ1 σ2 → Obj.keeps σ2 σ3 → Obj.keeps σ1 σ3.
Proof.
  intros [Hl1 H1] [Hl2 H2]. split; [lia|].
  intros l Hl. rewrite H2 by lia. by apply H1.
Qed.

Lemma keeps_alloc σ o : Obj.keeps σ (σ ++ [o]).
Proof.
  split; [rewrite length_app; lia|].
  intros l Hl. by apply lookup_app_l.
Qed.

Lemma keeps_insert σ0 σ l o :
  (length σ0 ≤ l)%nat → Obj.keeps σ0 σ → Obj.keeps σ0 (<[l := o]> σ).
Proof.
  intros Hl [Hlen H]. split; [by rewrite length_insert|].
  intros l' Hl'. rewrite list_lookup_insert_ne by lia. by apply H.
Qed.

Lemma list_is_valid σ r vs :
  Obj.list_is σ r vs → (r < length σ)%nat.
Proof. intros (xs & Hr & _). by apply lookup_lt_Some in Hr. Qed.

Lemma list_is_keeps σ σ' r vs :
  Obj.list_is σ r vs → Obj.keeps σ σ' → Obj.list_is σ' r vs.
Proof.
  intros (xs & Hr & Hxs) [_ H]. exists xs. split.
  - rewrite H; [done|]. by apply lookup_lt_Some in Hr.
  - eapply Forall2_impl; [done|]. intros l d Hl. simpl in *.
    rewrite H; [done|]. by apply lookup_lt_Some in Hl.
Qed.

Lemma table_is_keeps σ σ' dpo dp :
  Obj.table_is σ dpo dp → Obj.keeps σ σ' → Obj.table_is σ' dpo dp.
Proof.
  intros Ht Hk. eapply Forall2_impl; [done|].
  intros so sv [? ?]. split; [done|]. by apply (list_is_keeps σ).
Qed.

(** ** The statements of the loop body *)

Lemma Obj_copy_run σ x v :
  σ !! x = Some (Obj.ODict v) →
  Obj.copy x σ = (Ok (length σ), σ ++ [Obj.ODict v]).
Proof.
  intros Hx. unfold Obj.copy, Obj.bind, Obj.load_dict, Obj.alloc.
  by rewrite Hx.
Qed.

Lemma Obj_iadd_item_run σ v b v' :
  dict_iadd b 1 v = Ok v' →
  Obj.iadd_item (length σ) b 1 (σ ++ [Obj.ODict v])
  = (Ok tt, σ ++ [Obj.ODict v']).
Proof.
  intros Hv. unfold Obj.iadd_item, Obj.bind, Obj.load_dict, Obj.lift,
    Obj.store_at.
  rewrite lookup_app_r by done. rewrite Nat.sub_diag. simpl.
  rewrite Hv. f_equal.
  rewrite insert_app_r_alt by done. by rewrite Nat.sub_diag.
Qed.

Lemma Obj_append_run σt σ rb acc v' :
  Obj.keeps σt σ → (length σt ≤ rb)%nat → Obj.list_is σ rb acc →
  ∃ σ', Obj.append rb (length σ) (σ ++ [Obj.ODict v']) = (Ok tt, σ') ∧
        Obj.keeps σt σ' ∧ Obj.list_is σ' rb (acc ++ [v']).
Proof.
  intros Hk Hrb (xs & Hr & Hxs).
  pose proof (lookup_lt_Some _ _ _ Hr) as Hlt.
  unfold Obj.append, Obj.bind, Obj.load_list, Obj.store_at.
  eexists. split; [rewrite lookup_app_l by done; by rewrite Hr|]. split.
  - apply keeps_insert; [done|]. eapply keeps_trans; [done|apply keeps_alloc].
  - exists (xs ++ [length σ]). split.
    + apply list_lookup_insert_eq. rewrite length_app. lia.
    + apply Forall2_app.
      * eapply Forall2_impl; [done|]. intros l d Hl. simpl in *.
        pose proof (lookup_lt_Some _ _ _ Hl).
        rewrite list_lookup_insert_ne by congruence.
        by rewrite lookup_app_l.
      * constructor; [|constructor].
        rewrite list_lookup_insert_ne by lia.
        rewrite lookup_app_r by done. by rewrite Nat.sub_diag.
Qed.

Lemma Obj_contains_scan σ x dx (xs : list Obj.loc) (vs : list dict) found :
  Forall2 (λ l d, σ !! l = Some (Obj.ODict d) ∧ l ≠ x) xs vs →
  Obj.for_each xs found
    (λ (found : bool) (e : Obj.loc),
       if found then Obj.ret true
       else if (e =? x)%nat then Obj.ret true
       else Obj.bind (Obj.load_dict e) (λ de, Obj.ret (dict_eqb de dx))) σ
  = (Ok (found || existsb (λ e, dict_eqb e dx) vs), σ).
Proof.
  intros H. revert found. induction H as [|l d xs vs [Hl Hne] _ IH];
    intros found; simpl.
  - by rewrite orb_false_r.
  - unfold Obj.bind at 1. destruct found; simpl.
    + by rewrite IH.
    + replace (l =? x)%nat with false by (symmetry; by apply Nat.eqb_neq).
      unfold Obj.bind, Obj.load_dict. rewrite Hl. simpl.
      rewrite IH. by destruct (dict_eqb d dx).
Qed.

Lemma Obj_contains_run σ rb acc v' :
  Obj.list_is σ rb acc →
  Obj.contains (length σ) rb (σ ++ [Obj.ODict v'])
  = (Ok (list_contains v' acc), σ ++ [Obj.ODict v']).
Proof.
  intros (xs & Hr & Hxs).
  pose proof (lookup_lt_Some _ _ _ Hr) as Hlt.
  unfold Obj.contains, Obj.bind at 1, Obj.load_dict.
  rewrite lookup_app_r by done. rewrite Nat.sub_diag. simpl.
  unfold Obj.bind, Obj.load_list. rewrite lookup_app_l by done. rewrite Hr.
  rewrite (Obj_contains_scan _ _ v' xs acc); [done|].
  eapply Forall2_impl; [done|]. intros l d Hl. simpl in *.
  pose proof (lookup_lt_Some _ _ _ Hl).
  split; [by rewrite lookup_app_l|lia].
Qed.

(** ** Loops *)

Lemma Obj_for_each_sim {A St So} (R : St → So → list Obj.object → Prop)
    (xs : list A) (bodyp : St → A → result St) (bodyo : So → A → Obj.M So) :
  (∀ x acc acco σ acc1,
     R acc acco σ → bodyp acc x = Ok acc1 →
     ∃ acco1 σ1, bodyo acco x σ = (Ok acco1, σ1) ∧ R acc1 acco1 σ1) →
  ∀ acc acco σ acc',
    R acc acco σ → for_each xs acc bodyp = Ok acc' →
    ∃ acco' σ', Obj.for_each xs acco bodyo σ = (Ok acco', σ') ∧
                R acc' acco' σ'.
Proof.
  intros Hstep. induction xs as [|x xs IH]; intros acc acco σ acc' HR; simpl.
  - intros [= <-]. by exists acco, σ.
  - destruct (bodyp acc x) as [acc1|e] eqn:Hb; simpl; [|done]. intros Hrest.
    destruct (Hstep x acc acco σ acc1 HR Hb) as (acco1 & σ1 & Hrun & HR1).
    destruct (IH acc1 acco1 σ1 acc' HR1 Hrest) as (acco' & σ' & Hrun' & HR').
    exists acco', σ'. by rewrite (Obj_bind_Ok _ _ _ _ _ Hrun).
Qed.

Lemma Obj_for_in_sim {St} (R : St → list Obj.object → Prop) (r : Obj.loc)
    (xs : list Obj.loc) (vs : list dict)
    (bodyp : St → dict → result St) (bodyo : Obj.loc → Obj.M unit) :
  length xs = length vs →
  (∀ acc σ, R acc σ → σ !! r = Some (Obj.OList xs)) →
  (∀ i x v acc acc1 σ,
     xs !! i = Some x → vs !! i = Some v →
     R acc σ → bodyp acc v = Ok acc1 →
     ∃ σ1, bodyo x σ = (Ok tt, σ1) ∧ R acc1 σ1) →
  ∀ fuel i acc acc' σ,
    R acc σ → for_each (drop i vs) acc bodyp = Ok acc' →
    (length xs - i < fuel)%nat →
    ∃ σ', Obj.for_in fuel r i bodyo σ = (Ok tt, σ') ∧ R acc' σ'.
Proof.
  intros Hlen Hr Hstep.
  induction fuel as [|fuel IH]; intros i acc acc' σ HR Hrun Hfuel; [lia|].
  simpl. unfold Obj.bind at 1, Obj.load_list. rewrite (Hr acc σ HR).
  destruct (xs !! i) as [x|] eqn:Hx.
  - pose proof (lookup_lt_Some _ _ _ Hx) as Hi.
    destruct (lookup_lt_is_Some_2 vs i ltac:(lia)) as [v Hv].
    rewrite (drop_S vs v i Hv) in Hrun. simpl in Hrun.
    destruct (bodyp acc v) as [acc1|e] eqn:Hb; simpl in Hrun; [|done].
    destruct (Hstep i x v acc acc1 σ Hx Hv HR Hb) as (σ1 & Hbody & HR1).
    rewrite (Obj_bind_Ok _ _ _ _ _ Hbody).
    apply (IH (S i) acc1 acc' σ1 HR1 Hrun). lia.
  - apply lookup_ge_None in Hx.
    rewrite drop_ge in Hrun by lia. injection Hrun as <-.
    by exists σ.
Qed.

Lemma Obj_for_in_list_sim {St} (R : St → list Obj.object → Prop) (r : Obj.loc)
    (xs : list Obj.loc) (vs : list dict)
    (bodyp : St → dict → result St) (bodyo : Obj.loc → Obj.M unit) :
  length xs = length vs →
  (∀ acc σ, R acc σ → σ !! r = Some (Obj.OList xs)) →
  (∀ i x v acc acc1 σ,
     xs !! i = Some x → vs !! i = Some v →
     R acc σ → bodyp acc v = Ok acc1 →
     ∃ σ1, bodyo x σ = (Ok tt, σ1) ∧ R acc1 σ1) →
  ∀ acc acc' σ,
    R acc σ → for_each vs acc bodyp = Ok acc' →
    ∃ σ', Obj.for_in_list r bodyo σ = (Ok tt, σ') ∧ R acc' σ'.
Proof.
  intros Hlen Hr Hstep acc acc' σ HR Hrun.
  unfold Obj.for_in_list, Obj.bind, Obj.load_list. rewrite (Hr acc σ HR).
  apply (Obj_for_in_sim R r xs vs bodyp bodyo Hlen Hr Hstep
           (S (length xs)) 0%nat acc acc' σ HR); [done|lia].
Qed.

(** ** The loops over the previous solutions, on the store *)

Lemma Obj_extend_replace_sim b rps prev news σt σ :
  Obj.list_is σt rps prev → Obj.keeps σt σ →
  extend_replace b prev = Ok news →
  ∃ rb σ',
    Obj.extend_replace b rps σ = (Ok rb, σ') ∧
    Obj.keeps σt σ' ∧ (length σt ≤ rb)%nat ∧ Obj.list_is σ' rb news.
Proof.
  intros Hprev Hk Hrun. pose proof Hprev as (xs & Hrps & Hxs).
  pose proof (lookup_lt_Some _ _ _ Hrps) as Hrps_lt.
  set (rb := length σ).
  assert (Hrb : (length σt ≤ rb)%nat) by (destruct Hk; subst rb; lia).
  set (R := λ (acc : list dict) (σ' : list Obj.object),
              Obj.keeps σt σ' ∧ Obj.list_is σ' rb acc).
  assert (HR0 : R [] (σ ++ [Obj.OList []])).
  { split; [eapply keeps_trans; [done|apply keeps_alloc]|].
    exists []. split; [|constructor].
    subst rb. rewrite lookup_app_r by done. by rewrite Nat.sub_diag. }
  destruct (Obj_for_in_list_sim R rps xs prev
              (λ best_solutions prev_solution,
                 let! new_solution := dict_iadd b 1 prev_solution in
                 Ok (best_solutions ++ [new_solution]))
              (λ prev_solution,
                 Obj.bind (Obj.copy prev_solution) (λ new_solution,
                 Obj.bind (Obj.iadd_item new_solution b 1) (λ _,
                 Obj.append rb new_solution))))
    with (acc := @nil dict) (acc' := news) (σ := σ ++ [Obj.OList []])
    as (σ' & Hloop & Hk' & Hlist); [..|done|done|].
  - by eapply Forall2_length.
  - intros acc σ1 [[_ Hk1] _]. by rewrite Hk1.
  - intros i x v acc acc1 σ1 Hx Hv [Hk1 Hl1] Hbody.
    destruct (dict_iadd b 1 v) as [v'|e] eqn:Hiadd; simpl in Hbody; [|done].
    injection Hbody as <-.
    assert (Hxv : σ1 !! x = Some (Obj.ODict v)).
    { pose proof (Forall2_lookup_lr _ _ _ _ _ _ Hxs Hx Hv) as Hσt.
      simpl in Hσt. destruct Hk1 as [_ Hk1]. rewrite Hk1; [done|].
      by apply lookup_lt_Some in Hσt. }
    rewrite (Obj_bind_Ok _ _ _ _ _ (Obj_copy_run σ1 x v Hxv)).
    rewrite (Obj_bind_Ok _ _ _ _ _ (Obj_iadd_item_run σ1 v b v' Hiadd)).
    destruct (Obj_append_run σt σ1 rb acc v' Hk1 Hrb Hl1) as (σ2 & ? & ? & ?).
    by exists σ2.
  - exists rb, σ'. split; [|done].
    unfold Obj.extend_replace, Obj.bind at 1, Obj.alloc.
    fold rb. rewrite (Obj_bind_Ok _ _ _ _ _ Hloop). done.
Qed.

Lemma Obj_extend_merge_sim b rps prev rb best best' σt σ :
  Obj.list_is σt rps prev → Obj.keeps σt σ →
  (length σt ≤ rb)%nat → Obj.list_is σ rb best →
  extend_merge b prev best = Ok best' →
  ∃ σ',
    Obj.extend_merge b rps rb σ = (Ok tt, σ') ∧
    Obj.keeps σt σ' ∧ Obj.list_is σ' rb best'.
Proof.
  intros Hprev Hk Hrb Hbest Hrun. pose proof Hprev as (xs & Hrps & Hxs).
  pose proof (lookup_lt_Some _ _ _ Hrps) as Hrps_lt.
  set (R := λ (acc : list dict) (σ' : list Obj.object),
              Obj.keeps σt σ' ∧ Obj.list_is σ' rb acc).
  destruct (Obj_for_in_list_sim R rps xs prev
              (λ best_solutions prev_solution,
                 let! new_solution := dict_iadd b 1 prev_solution in
                 Ok (if list_contains new_solution best_solutions
                     then best_solutions
                     else best_solutions ++ [new_solution]))
              (λ prev_solution,
                 Obj.bind (Obj.copy prev_solution) (λ new_solution,
                 Obj.bind (Obj.iadd_item new_solution b 1) (λ _,
                 Obj.bind (Obj.contains new_solution rb) (λ found,
                 if found then Obj.ret tt
                 else Obj.append rb new_solution)))))
    with (acc := best) (acc' := best') (σ := σ)
    as (σ' & Hloop & Hk' & Hlist); [..|by split|done|].
  - by eapply Forall2_length.
  - intros acc σ1 [[_ Hk1] _]. by rewrite Hk1.
  - intros i x v acc acc1 σ1 Hx Hv [Hk1 Hl1] Hbody.
    destruct (dict_iadd b 1 v) as [v'|e] eqn:Hiadd; simpl in Hbody; [|done].
    injection Hbody as <-.
    assert (Hxv : σ1 !! x = Some (Obj.ODict v)).
    { pose proof (Forall2_lookup_lr _ _ _ _ _ _ Hxs Hx Hv) as Hσt.
      simpl in Hσt. destruct Hk1 as [_ Hk1]. rewrite Hk1; [done|].
      by apply lookup_lt_Some in Hσt. }
    rewrite (Obj_bind_Ok _ _ _ _ _ (Obj_copy_run σ1 x v Hxv)).
    rewrite (Obj_bind_Ok _ _ _ _ _ (Obj_iadd_item_run σ1 v b v' Hiadd)).
    rewrite (Obj_bind_Ok _ _ _ _ _ (Obj_contains_run σ1 rb acc v' Hl1)).
    destruct (list_contains v' acc).
    + exists (σ1 ++ [Obj.ODict v']). split; [done|]. split.
      * eapply keeps_trans; [done|apply keeps_alloc].
      * eapply list_is_keeps; [done|apply keeps_alloc].
    + destruct (Obj_append_run σt σ1 rb acc v' Hk1 Hrb Hl1)
        as (σ2 & ? & ? & ?).
      by exists σ2.
  - by exists σ'.
Qed.

(** ** The table of references *)

Lemma py_index_table_is σ dpo dp i pp prev :
  Obj.table_is σ dpo dp → py_index dp i = Ok (pp, prev) →
  ∃ rps, py_index dpo i = Ok (pp, rps) ∧ Obj.list_is σ rps prev.
Proof.
  intros Ht. pose proof (Forall2_length _ _ _ Ht) as Hlen.
  unfold py_index. rewrite Hlen.
  destruct (_ && _); [|done].
  destruct (dp !! _) as [[pp' prev']|] eqn:Hdp; [|done]. intros [= -> ->].
  destruct (Forall2_lookup_r _ _ _ _ _ Ht Hdp) as ([po rps] & Hdpo & Hp & Hl).
  simpl in *. subst po. rewrite Hdpo. by exists rps.
Qed.

Lemma py_setitem_table_is σ dpo dp i sto stv dp' :
  Obj.table_is σ dpo dp →
  sto.1 = stv.1 → Obj.list_is σ sto.2 stv.2 →
  py_setitem dp i stv = Ok dp' →
  ∃ dpo', py_setitem dpo i sto = Ok dpo' ∧ Obj.table_is σ dpo' dp'.
Proof.
  intros Ht Hp Hl. pose proof (Forall2_length _ _ _ Ht) as Hlen.
  unfold py_setitem. rewrite Hlen.
  destruct (_ && _); [|done]. intros [= <-].
  eexists. split; [done|]. by apply Forall2_insert.
Qed.

Lemma Obj_try_building_sim h σt dpo dp t mp rb best item mp' best' σ :
  Obj.table_is σt dpo dp → Obj.keeps σt σ →
  (length σt ≤ rb)%nat → Obj.list_is σ rb best →
  try_building h dp t (mp, best) item = Ok (mp', best') →
  ∃ rb' σ',
    Obj.try_building h dpo t (mp, rb) item σ = (Ok (mp', rb'), σ') ∧
    Obj.keeps σt σ' ∧ (length σt ≤ rb')%nat ∧ Obj.list_is σ' rb' best'.
Proof.
  intros Ht Hk Hrb Hbest. destruct item as [b cfg].
  unfold try_building, Obj.try_building.
  destruct (t >=? time cfg); [|intros [= <- <-]; by exists rb, σ].
  destruct (py_index dp (t - time cfg)) as [[pp prev]|e] eqn:Hidx; simpl;
    [|done].
  destruct (py_index_table_is σt dpo dp _ pp prev Ht Hidx)
    as (rps & Hidxo & Hprev).
  unfold Obj.bind at 1, Obj.lift. rewrite Hidxo.
  destruct (pp + earning cfg * (h - t) >? mp).
  - destruct (extend_replace b prev) as [news|e] eqn:Hrun; simpl; [|done].
    intros [= <- <-].
    destruct (Obj_extend_replace_sim b rps prev news σt σ Hprev Hk Hrun)
      as (rb' & σ' & Hruno & ? & ? & ?).
    exists rb', σ'. by rewrite (Obj_bind_Ok _ _ _ _ _ Hruno).
  - destruct (pp + earning cfg * (h - t) =? mp);
      [|intros [= <- <-]; by exists rb, σ].
    destruct (extend_merge b prev best) as [merged|e] eqn:Hrun; simpl;
      [|done].
    intros [= <- <-].
    destruct (Obj_extend_merge_sim b rps prev rb best merged σt σ
                Hprev Hk Hrb Hbest Hrun) as (σ' & Hruno & ? & ?).
    exists rb, σ'. by rewrite (Obj_bind_Ok _ _ _ _ _ Hruno).
Qed.

Lemma Obj_dp_step_sim h σ dpo dp t dp' :
  Obj.table_is σ dpo dp → dp_step h dp t = Ok dp' →
  ∃ dpo' σ',
    Obj.dp_step h dpo t σ = (Ok dpo', σ') ∧
    Obj.keeps σ σ' ∧ Obj.table_is σ' dpo' dp'.
Proof.
  intros Ht. unfold dp_step, Obj.dp_step.
  destruct (py_index dp (t - 1)) as [[mp prev]|e] eqn:Hidx; simpl; [|done].
  destruct (py_index_table_is σ dpo dp _ mp prev Ht Hidx)
    as (rprev & Hidxo & Hprev).
  unfold Obj.bind at 1, Obj.lift. rewrite Hidxo.
  destruct (for_each BUILDINGS (mp, prev) (try_building h dp t))
    as [[mp' best']|e] eqn:Hloop; simpl; [|done].
  intros Hset.
  pose proof Hprev as (xs & Hr & Hxs).
  unfold Obj.bind at 1, Obj.list_of, Obj.bind at 1, Obj.load_list, Obj.alloc.
  rewrite Hr.
  set (R := λ (st : Z * list dict) (sto : Z * Obj.loc) (σ' : list Obj.object),
              sto.1 = st.1 ∧ Obj.keeps σ σ' ∧
              (length σ ≤ sto.2)%nat ∧ Obj.list_is σ' sto.2 st.2).
  destruct (Obj_for_each_sim R BUILDINGS (try_building h dp t)
              (Obj.try_building h dpo t))
    with (acc := (mp, prev)) (acco := (mp, length σ))
         (σ := σ ++ [Obj.OList xs]) (acc' := (mp', best'))
    as ([mpo rb'] & σ' & Hloopo & Hmp & Hk & Hrb & Hl); [| |done|].
  - intros item [mp1 best1] [mpo1 rb1] σ1 [mp2 best2]
      (Hmp1 & Hk1 & Hrb1 & Hl1) Hbody. simpl in *. subst mpo1.
    destruct (Obj_try_building_sim h σ dpo dp t mp1 rb1 best1 item mp2 best2
                σ1 Ht Hk1 Hrb1 Hl1 Hbody) as (rb2 & σ2 & ? & ? & ? & ?).
    by exists (mp2, rb2), σ2.
  - split; [done|]. split; [apply keeps_alloc|]. split; [simpl; lia|].
    simpl. exists xs. split.
    + rewrite lookup_app_r by done. by rewrite Nat.sub_diag.
    + eapply Forall2_impl; [done|]. intros l d Hld. simpl in *.
      rewrite lookup_app_l; [done|]. by apply lookup_lt_Some in Hld.
  - simpl in *. subst mpo.
    destruct (py_setitem_table_is σ' dpo dp t (mp', rb') (mp', best') dp')
      as (dpo' & Hseto & Ht'); [by apply (table_is_keeps σ)|done..|].
    exists dpo', σ'. rewrite (Obj_bind_Ok _ _ _ _ _ Hloopo).
    unfold Obj.lift. by rewrite Hseto.
Qed.

Lemma table_is_replicate σ n p r vs :
  Obj.list_is σ r vs →
  Obj.table_is σ (replicate n (p, r)) (replicate n (p, vs)).
Proof. intros H. apply Forall2_replicate. by split. Qed.

(** Refinement: on a horizon that is not negative the optimizer on the
    store returns the profit that the optimizer on values returns, and a
    reference to a list of dicts holding the values it returns; every
    object that was in the store before the call is unchanged after it. *)
Lemma Obj_solve_refines h σ :
  0 ≤ h →
  ∃ p sols r σ',
    solve_dp_all_solutions h = Ok (p, sols) ∧
    Obj.solve_dp_all_solutions h σ = (Ok (p, r), σ') ∧
    Obj.list_is σ' r sols ∧ Obj.keeps σ σ'.
Proof.
  intros Hh. destruct (solve_ok h Hh) as ([p sols] & Hrun & _).
  exists p, sols. unfold solve_dp_all_solutions in Hrun.
  destruct (for_each _ _ _) as [dp|e] eqn:Hloop in Hrun; simpl in Hrun;
    [|done].
  unfold Obj.solve_dp_all_solutions, Obj.bind at 1, Obj.alloc.
  unfold Obj.bind at 1. rewrite length_app. simpl.
  set (σ2 := (σ ++ [Obj.ODict initial_solution]) ++ [Obj.OList [length σ]]).
  set (l0 := (length σ + 1)%nat).
  assert (Hl0 : Obj.list_is σ2 l0 [initial_solution]).
  { exists [length σ]. subst σ2 l0. split.
    - rewrite lookup_app_r by (rewrite length_app; simpl; lia).
      rewrite length_app. simpl. by rewrite Nat.sub_diag.
    - constructor; [|constructor].
      rewrite <- app_assoc. rewrite lookup_app_r by done.
      by rewrite Nat.sub_diag. }
  assert (Hk2 : Obj.keeps σ σ2).
  { eapply keeps_trans; apply keeps_alloc. }
  set (R := λ (dp : list (Z * list dict)) (dpo : list (Z * Obj.loc))
              (σ' : list Obj.object),
              Obj.keeps σ σ' ∧ Obj.table_is σ' dpo dp).
  destruct (Obj_for_each_sim R (py_range 1 (h + 1)) (dp_step h)
              (Obj.dp_step h))
    with (acc := py_list_repeat (0, [initial_solution]) (h + 1))
         (acco := py_list_repeat (0, l0) (h + 1)) (σ := σ2) (acc' := dp)
    as (dpo & σ' & Hloopo & Hk & Ht); [| |done|].
  - intros t dp1 dpo1 σ1 dp2 [Hk1 Ht1] Hstep.
    destruct (Obj_dp_step_sim h σ1 dpo1 dp1 t dp2 Ht1 Hstep)
      as (dpo2 & σ3 & ? & ? & ?).
    exists dpo2, σ3. split; [done|]. split; [|done].
    by eapply keeps_trans.
  - split; [done|]. by apply table_is_replicate.
  - destruct (py_index_table_is σ' dpo dp h p sols Ht Hrun)
      as (r & Hidx & Hr).
    exists r, σ'. split.
    { unfold solve_dp_all_solutions. by rewrite Hloop. }
    rewrite (Obj_bind_Ok _ _ _ _ _ Hloopo). unfold Obj.lift.
    by rewrite Hidx.
Qed.

Lemma Obj_solve_negative h σ :
  h < 0 → (Obj.solve_dp_all_solutions h σ).1 = Raise "IndexError".
Proof.
  intros Hh. unfold Obj.solve_dp_all_solutions, Obj.bind, Obj.alloc.
  rewrite py_range_empty by lia. simpl.
  unfold py_list_repeat. replace (Z.to_nat (h + 1)) with 0%nat by lia.
  simpl. unfold Obj.lift. by rewrite py_index_nil.
Qed.

(** * Further properties of the evaluators *)

Lemma getitem_Raise {V} k (d : list (string * V)) e :
  getitem k d = Raise e → e = "KeyError" ∧ k ∉ d.*1.
Proof.
  induction d as [|[k' v] d IH]; simpl.
  - intros [= <-]. split; [done|]. apply not_elem_of_nil.
  - destruct (String.eqb_spec k' k) as [->|Hne]; [done|].
    intros [-> Hk]%IH. split; [done|].
    intros [?|?]%elem_of_cons; [congruence|done].
Qed.

Lemma cp_items_outcome h (c : dict) st :
  (Exists unknown_entry c ∧ cp_items h c st = Raise "KeyError") ∨
  (Forall (λ kv, ¬ unknown_entry kv) c ∧ ∃ st', cp_items h c st = Ok st').
Proof.
  revert st. induction c as [|[b n] c IH]; intros st.
  - right. split; [constructor|]. by exists st.
  - cbn [cp_items]. destruct (Z.gtb_spec n 0) as [Hn|Hn].
    + destruct (getitem b BUILDINGS) as [cfg|e] eqn:Hb; simpl.
      * apply getitem_Ok_elem_of, catalog_entry_name in Hb.
        destruct (IH (cp_instances h (time cfg) (earning cfg) (Z.to_nat n) st))
          as [[Hex Hrun]|[Hall Hrun]].
        -- left. split; [by right|done].
        -- right. split; [|done]. constructor; [|done].
           intros [_ Hnot]. by apply Hnot.
      * apply getitem_Raise in Hb as [-> Hb]. left. split; [|done].
        left. split; simpl; [lia|done].
    + destruct (IH st) as [[Hex Hrun]|[Hall Hrun]].
      * left. split; [by right|done].
      * right. split; [|done]. constructor; [|done].
        intros [Hpos _]. simpl in Hpos. lia.
Qed.

Lemma unknown_entry_exclusive (c : dict) :
  Exists unknown_entry c → Forall (λ kv, ¬ unknown_entry kv) c → False.
Proof.
  intros (kv & Hin & Hbad)%Exists_exists Hall.
  rewrite Forall_forall in Hall. by apply (Hall kv).
Qed.

(** X5: both evaluators fail exactly when some entry has a positive count
    for a name that is not in the catalog, and then with [KeyError];
    otherwise they return. *)
Theorem evaluators_raise_iff_unknown_entry (h : Z) (c : dict) :
  (validate_solution h c = Raise "KeyError" ↔ Exists unknown_entry c) ∧
  ((∃ r, validate_solution h c = Ok r) ↔
   Forall (λ kv, ¬ unknown_entry kv) c) ∧
  (calculate_profit h c = Raise "KeyError" ↔ Exists unknown_entry c) ∧
  ((∃ p, calculate_profit h c = Ok p) ↔
   Forall (λ kv, ¬ unknown_entry kv) c).
Proof.
  unfold validate_solution, calculate_profit. rewrite vs_items_cp.
  destruct (cp_items_outcome h c (0, 0)) as [[Hex ->]|[Hall [[p t] ->]]];
    simpl.
  - pose proof (unknown_entry_exclusive c Hex) as Hno.
    repeat split; try done; try (by intros [? ?]); intros H; by destruct Hno.
  - pose proof (λ Hex, unknown_entry_exclusive c Hex Hall) as Hno.
    repeat split; try done; try (intros H; by destruct (Hno H)); eauto.
Qed.

Lemma cp_items_positive_entries h (c : dict) st :
  cp_items h c st = cp_items h (filter (λ kv : string * Z, 0 < kv.2) c) st.
Proof.
  revert st. induction c as [|[b n] c IH]; intros st; [done|].
  rewrite filter_cons. cbn [cp_items snd].
  destruct (Z.gtb_spec n 0) as [Hn|Hn].
  - rewrite decide_True by done. cbn [cp_items].
    replace (n >? 0) with true by lia.
    destruct (getitem b BUILDINGS); simpl; [apply IH|done].
  - rewrite decide_False by lia. apply IH.
Qed.

(** X6: entries whose count is zero or negative have no effect on either
    evaluator, whatever their name: dropping them from the dict changes
    neither the result nor the failure. *)
Theorem evaluators_ignore_nonpositive_entries (h : Z) (c : dict) :
  validate_solution h c =
    validate_solution h (filter (λ kv : string * Z, 0 < kv.2) c) ∧
  calculate_profit h c =
    calculate_profit h (filter (λ kv : string * Z, 0 < kv.2) c).
Proof.
  unfold validate_solution, calculate_profit. rewrite !vs_items_cp.
  by rewrite <- cp_items_positive_entries.
Qed.

Lemma simulate_order_Ok_names h order t q :
  simulate_order h order t = Ok q → Forall (λ b, b ∈ BUILDINGS.*1) order.
Proof.
  revert t q. induction order as [|b order IH]; intros t q; simpl.
  - constructor.
  - destruct (getitem b BUILDINGS) as [cfg|e] eqn:Hb; simpl; [|done].
    destruct (simulate_order h order _) as [r|e] eqn:Hr; simpl; [|done].
    intros _. constructor; [|by eapply IH].
    by apply getitem_Ok_elem_of, catalog_entry_name in Hb.
Qed.

Lemma validate_solution_Ok h (c : dict) v p m :
  validate_solution h c = Ok (v, p, m) →
  simulate_order h (entry_instances c) 0 = Ok p ∧
  v = (order_time (entry_instances c) <=? h).
Proof.
  unfold validate_solution. rewrite vs_items_cp, cp_items_simulate.
  destruct (simulate_order h (entry_instances c) 0) as [g|e]; simpl; [|done].
  rewrite !Z.add_0_l. by intros [= <- <- <-].
Qed.

Lemma simulate_order_mono h h' order t q :
  h ≤ h' → simulate_order h order t = Ok q →
  ∃ q', simulate_order h' order t = Ok q' ∧ 0 ≤ q ≤ q'.
Proof.
  intros Hh. revert t q. induction order as [|b order IH]; intros t q; simpl.
  - intros [= <-]. by exists 0.
  - destruct (getitem b BUILDINGS) as [cfg|e] eqn:Hb; simpl; [|done].
    apply getitem_BUILDINGS, BUILDINGS_positive in Hb as [Hd He].
    destruct (simulate_order h order _) as [r|e] eqn:Hr; simpl; [|done].
    intros [= <-]. destruct (IH _ _ Hr) as (r' & -> & Hr'). simpl.
    eexists. split; [done|].
    assert (0 ≤ earning cfg * Z.max (h - (t + time cfg)) 0)
      by (apply Z.mul_nonneg_nonneg; lia).
    assert (earning cfg * Z.max (h - (t + time cfg)) 0 ≤
            earning cfg * Z.max (h' - (t + time cfg)) 0)
      by (apply Z.mul_le_mono_nonneg_l; lia).
    lia.
Qed.

(** X7: the profit that [validate_solution] computes is never negative and
    never decreases when the horizon grows; a combination that is valid
    for a horizon is valid for every longer one, and a longer horizon
    never turns a result into a failure. *)
Theorem validate_profit_monotone_in_horizon
    (h h' : Z) (c : dict) (v : bool) (p : Z) (m : string) :
  h ≤ h' →
  validate_solution h c = Ok (v, p, m) →
  ∃ v' p' m',
    validate_solution h' c = Ok (v', p', m') ∧
    0 ≤ p ≤ p' ∧ (v = true → v' = true).
Proof.
  intros Hh [Hp ->]%validate_solution_Ok.
  destruct (simulate_order_mono h h' _ 0 p Hh Hp) as (p' & Hp' & Hpp).
  rewrite (validate_solution_simulate h' c p' Hp').
  do 3 eexists. split; [done|]. split; [done|]. lia.
Qed.

Lemma validate_profit_monotone_in_horizon_witness :
  ∃ v' p' m',
    validate_solution 20 [("Theatre", 2); ("Pub", 1); ("Cinema", 0)]
      = Ok (v', p', m') ∧
    0 ≤ 19500 ≤ p' ∧ (true = true → v' = true).
Proof.
  apply (validate_profit_monotone_in_horizon 14 20
           [("Theatre", 2); ("Pub", 1); ("Cinema", 0)] true 19500
           "Time used: 14/14, Profit: $19,500"); [lia|].
  vm_compute. reflexivity.
Defined.

(** * Further properties of the optimizer *)

(** Whatever the order and however long it takes, the simulation earns at
    most what the recurrence allows: an instance that finishes after the
    horizon earns nothing. *)
Lemma simulate_order_le_V_any h order :
  0 ≤ h → Forall (λ b, b ∈ BUILDINGS.*1) order →
  ∃ q, simulate_order h order 0 = Ok q ∧
       q ≤ V h (Z.min (order_time order) h).
Proof.
  intros Hh. induction order as [|b order IH] using rev_ind; intros Hnames.
  - exists 0. split; [done|]. apply V_nonneg.
  - apply Forall_app in Hnames as [Hnames Hb].
    apply Forall_singleton, catalog_name_getitem in Hb as [cfg Hb].
    pose proof (proj1 (getitem_BUILDINGS b cfg) Hb) as Hin.
    destruct (BUILDINGS_positive b cfg Hin) as [Hd He].
    destruct (IH Hnames) as (q & Hq & Hle).
    rewrite (order_time_snoc order b cfg) by done.
    eexists. split; [by apply simulate_order_snoc|].
    pose proof (order_time_nonneg order) as Hot.
    destruct (Z.le_gt_cases (order_time order + time cfg) h) as [Hfit|Hlate].
    + rewrite Z.min_l in * by lia.
      pose proof (V_build_le h (order_time order + time cfg) b cfg Hin) as HV.
      replace (order_time order + time cfg - time cfg) with (order_time order)
        in HV by lia.
      lia.
    + rewrite (Z.max_r (h - _) 0) by lia. rewrite (Z.min_r _ h) by lia.
      pose proof (V_mono_t h (Z.min (order_time order) h) h ltac:(lia)). lia.
Qed.

(** X2: the optimizer's maximum is an upper bound for the evaluator: on a
    horizon that is not negative, whatever dict [validate_solution]
    accepts, in whatever order of entries and whether it fits the horizon
    or not, the profit it computes is at most the maximum profit that
    [solve_dp_all_solutions] returns. *)
Theorem no_evaluated_profit_beats_optimizer
    (h : Z) (c : dict) (v : bool) (p : Z) (m : string) :
  0 ≤ h →
  validate_solution h c = Ok (v, p, m) →
  ∃ max_profit sols,
    solve_dp_all_solutions h = Ok (max_profit, sols) ∧ p ≤ max_profit.
Proof.
  intros Hh [Hp _]%validate_solution_Ok.
  destruct (solve_ok h Hh) as ([best sols] & Hrun & Hbest & _).
  exists best, sols. split; [done|]. simpl in Hbest. rewrite Hbest.
  destruct (simulate_order_le_V_any h (entry_instances c) Hh
              (simulate_order_Ok_names _ _ _ _ Hp)) as (q & Hq & Hle).
  rewrite Hp in Hq. injection Hq as <-.
  etrans; [done|]. apply V_mono_t. lia.
Qed.

Lemma no_evaluated_profit_beats_optimizer_witness :
  ∃ max_profit sols,
    solve_dp_all_solutions 10 = Ok (max_profit, sols) ∧ 7500 ≤ max_profit.
Proof.
  apply (no_evaluated_profit_beats_optimizer 10
           [("Pub", 1); ("Theatre", 1); ("Commercial Park", 3)] false 7500
           "Time used: 39/10, Profit: $7,500"); [lia|].
  vm_compute. reflexivity.
Defined.

(** X3: on a horizon that is not negative every returned solution is a
    well-formed combination: exactly one entry per building type of the
    catalog, in catalog order, with a count that is not negative. *)
Theorem solve_solutions_are_combinations (h : Z) :
  0 ≤ h →
  ∃ p sols,
    solve_dp_all_solutions h = Ok (p, sols) ∧
    ∀ c, c ∈ sols →
      c.*1 = ["Theatre"; "Pub"; "Commercial Park"] ∧
      Forall (λ kv : string * Z, 0 ≤ kv.2) c ∧
      is_combination c.
Proof.
  intros Hh. destruct (solve_ok h Hh) as ([p sols] & Hrun & Hok).
  exists p, sols. split; [done|]. intros c Hc.
  destruct (solution_facts h p sols c Hok Hc) as (Hord & Hnn & _).
  split; [exact Hord|]. split; [done|]. split; [by rewrite Hord|done].
Qed.

Lemma solve_solutions_are_combinations_witness :
  ∃ p sols,
    solve_dp_all_solutions 20 = Ok (p, sols) ∧
    ∀ c, c ∈ sols →
      c.*1 = ["Theatre"; "Pub"; "Commercial Park"] ∧
      Forall (λ kv : string * Z, 0 ≤ kv.2) c ∧
      is_combination c.
Proof. apply (solve_solutions_are_combinations 20). lia. Defined.

Lemma V_positive h : 5 ≤ h → 0 < V h h.
Proof.
  intros Hh.
  assert (Hpub : ("Pub", {| time := 4; earning := 1000; code := "P" |})
                 ∈ BUILDINGS) by (apply getitem_BUILDINGS; reflexivity).
  pose proof (V_build_le h 4 _ _ Hpub ltac:(simpl; lia)) as H4.
  simpl in H4. pose proof (V_nonneg h (4 - 4)).
  pose proof (V_mono_t h 4 h ltac:(lia)). lia.
Qed.

(** X8: building nothing is among the returned solutions exactly on the
    horizons 0 to 4, which are also exactly the horizons with maximum
    profit 0: from horizon 5 on something earns. *)
Theorem solve_nothing_built_iff_short_horizon (h : Z) :
  0 ≤ h →
  ∃ p sols,
    solve_dp_all_solutions h = Ok (p, sols) ∧
    (p = 0 ↔ h ≤ 4) ∧
    (initial_solution ∈ sols ↔ h ≤ 4).
Proof.
  intros Hh. destruct (Z.le_gt_cases h 4) as [Hshort|Hlong].
  - assert (h = 0 ∨ h = 1 ∨ h = 2 ∨ h = 3 ∨ h = 4) as Hcases by lia.
    destruct Hcases as [->|[->|[->|[->| ->]]]];
      (eexists _, _; split; [vm_compute; reflexivity|]);
      (split; [done|]); (split; [done|]); intros _; left.
  - destruct (solve_ok h Hh) as ([p sols] & Hrun & Hok).
    pose proof Hok as [Hp _]. simpl in Hp.
    pose proof (V_positive h ltac:(lia)).
    exists p, sols. split; [done|]. split; [lia|]. split; [|lia].
    intros Hin.
    destruct (solution_facts h p sols _ Hok Hin)
      as (_ & _ & _ & (order & Hperm & Hsim) & _).
    rewrite canonical_instances_start in Hperm.
    apply Permutation_nil_r in Hperm as ->. simpl in Hsim.
    injection Hsim as <-. lia.
Qed.

Lemma solve_nothing_built_iff_short_horizon_witness :
  ∃ p sols,
    solve_dp_all_solutions 7 = Ok (p, sols) ∧
    (p = 0 ↔ 7 ≤ 4) ∧
    (initial_solution ∈ sols ↔ 7 ≤ 4).
Proof. apply (solve_nothing_built_iff_short_horizon 7). lia. Defined.

(** X4: the sharing in the table is harmless.  Run on a store of mutable
    objects, where line 29 puts one list and one dict into every slot, the
    optimizer returns on a horizon that is not negative the same profit as
    on values and a reference to a list of dicts that hold the same
    solutions; it changes no object that was in the store before. *)
Theorem Obj_solve_agrees_with_values (h : Z) (σ : list Obj.object) :
  0 ≤ h →
  ∃ p sols r σ',
    solve_dp_all_solutions h = Ok (p, sols) ∧
    Obj.solve_dp_all_solutions h σ = (Ok (p, r), σ') ∧
    Obj.list_is σ' r sols ∧
    (length σ ≤ length σ')%nat ∧
    ∀ l, (l < length σ)%nat → σ' !! l = σ !! l.
Proof.
  intros Hh.
  destruct (Obj_solve_refines h σ Hh) as (p & sols & r & σ' & ? & ? & ? & Hk).
  exists p, sols, r, σ'. by destruct Hk.
Qed.

Lemma Obj_solve_agrees_with_values_witness :
  ∃ p sols r σ',
    solve_dp_all_solutions 9 = Ok (p, sols) ∧
    Obj.solve_dp_all_solutions 9 [Obj.OList []] = (Ok (p, r), σ') ∧
    Obj.list_is σ' r sols ∧
    (length [Obj.OList []] ≤ length σ')%nat ∧
    ∀ l, (l < length [Obj.OList []])%nat → σ' !! l = [Obj.OList []] !! l.
Proof. apply (Obj_solve_agrees_with_values 9). lia. Defined.

(** ** The solution list is complete *)

Lemma Sched_nonneg h t c p : Sched h t c p → 0 ≤ t.
Proof.
  induction 1 as [|t c p _ IH|t c p b cfg c' Hb _ IH _]; [done|lia|].
  destruct (BUILDINGS_positive b cfg Hb). lia.
Qed.

Lemma Sched_keys h t c p : Sched h t c p → in_catalog_order c.
Proof.
  induction 1 as [|t c p _ IH|t c p b cfg c' Hb _ IH Hc']; [done..|].
  unfold in_catalog_order. by destruct (dict_iadd_keys b c c' Hc') as [-> _].
Qed.

(** The table never credits a combination with more than the recurrence
    allows. *)
Lemma Sched_bound h t c p : Sched h t c p → t ≤ h → p ≤ V h t.
Proof.
  intros Hs Ht.
  destruct (Sched_order h t c p Hs Ht)
    as (_ & order & q & Hperm & Htime & Hq & Hpq).
  pose proof (Forall_catalog_perm _ _ Hperm (canonical_instances_catalog c))
    as Hnames.
  destruct (simulate_order_le_V h order Hnames ltac:(lia)) as (q' & Hq' & Hle).
  rewrite Hq in Hq'. injection Hq' as <-.
  pose proof (V_mono_t h (order_time order) t Htime). lia.
Qed.

Lemma Sched_later h t t' c p : Sched h t c p → t ≤ t' → Sched h t' c p.
Proof.
  intros Hs Ht. replace t' with (t + Z.of_nat (Z.to_nat (t' - t))) by lia.
  induction (Z.to_nat (t' - t)) as [|n IH].
  - by replace (t + Z.of_nat 0) with t by lia.
  - replace (t + Z.of_nat (S n)) with (t + Z.of_nat n + 1) by lia.
    by apply Sched_idle.
Qed.

Lemma incremented_elem_of_l b prev news c c' :
  incremented b prev news → c ∈ prev → dict_iadd b 1 c = Ok c' → c' ∈ news.
Proof.
  intros H. induction H as [|x y prev news Hxy _ IH].
  - by intros ?%elem_of_nil.
  - intros [->|Hin]%elem_of_cons Hc.
    + rewrite Hxy in Hc. injection Hc as <-. left.
    + right. auto.
Qed.

Lemma list_contains_true (x : dict) (l : list dict) :
  in_catalog_order x → Forall in_catalog_order l →
  list_contains x l = true → x ∈ l.
Proof.
  intros Hx Hl (e & He%list_elem_of_In & Heq)%existsb_exists.
  rewrite Forall_forall in Hl.
  apply dict_eqb_catalog in Heq; [by subst|auto|done].
Qed.

Lemma extend_merge_complete b (prev : list dict) :
  Forall in_catalog_order prev →
  ∀ best best',
    Forall in_catalog_order best →
    extend_merge b prev best = Ok best' →
    best ⊆ best' ∧
    ∀ c c', c ∈ prev → dict_iadd b 1 c = Ok c' → c' ∈ best'.
Proof.
  unfold extend_merge.
  induction 1 as [|c0 prev Hc0 _ IH]; intros best best' Hbest; simpl.
  - intros [= <-]. split; [done|]. by intros c c' ?%elem_of_nil.
  - destruct (dict_iadd b 1 c0) as [c0'|e] eqn:Hiadd; simpl; [|done].
    assert (Hk0 : in_catalog_order c0').
    { unfold in_catalog_order.
      by destruct (dict_iadd_keys b c0 c0' Hiadd) as [-> _]. }
    destruct (list_contains c0' best) eqn:Hin; intros Hrun.
    + destruct (IH best best' Hbest Hrun) as [Hsub Hall].
      split; [done|]. intros c c' [->|Hc]%elem_of_cons Hcc'; [|eauto].
      rewrite Hiadd in Hcc'. injection Hcc' as <-.
      apply Hsub. by apply list_contains_true.
    + destruct (IH (best ++ [c0']) best') as [Hsub Hall];
        [apply Forall_app; split; [done|by constructor]|done|].
      split.
      * intros x Hx. apply Hsub, elem_of_app. by left.
      * intros c c' [->|Hc]%elem_of_cons Hcc'; [|eauto].
        rewrite Hiadd in Hcc'. injection Hcc' as <-.
        apply Hsub, elem_of_app. right. apply list_elem_of_singleton. done.
Qed.

Lemma table_slot h k dp t d :
  table_ok h k dp → table_complete h k dp →
  t = Z.of_nat k + 1 → 0 < d ≤ t →
  ∃ prev,
    py_index dp (t - d) = Ok (V h (t - d), prev) ∧
    sols_ok h (t - d) (V h (t - d)) prev ∧
    slot_complete h (t - d) (V h (t - d), prev).
Proof.
  intros [_ Hslots] Hcomplete -> Hd.
  destruct (Hslots (Z.to_nat (Z.of_nat k + 1 - d)) ltac:(lia))
    as ([pp prev] & Hlook & Hpp & Hprev).
  destruct (Hcomplete (Z.to_nat (Z.of_nat k + 1 - d)) ltac:(lia))
    as (slot & Hlook' & Hslot).
  rewrite Hlook in Hlook'. injection Hlook' as <-.
  rewrite Z2Nat.id in * by lia. simpl in *. subst pp.
  exists prev. split; [|done].
  apply py_index_lookup in Hlook. by rewrite Z2Nat.id in Hlook by lia.
Qed.

Lemma try_building_complete h k dp t seen mp best b cfg st' :
  t = Z.of_nat k + 1 →
  table_ok h k dp → table_complete h k dp → t ≤ h →
  sols_ok h t mp best →
  seen ⊆ BUILDINGS →
  acc_complete h t seen (mp, best) →
  (b, cfg) ∈ BUILDINGS →
  try_building h dp t (mp, best) (b, cfg) = Ok st' →
  acc_complete h t (seen ++ [(b, cfg)]) st'.
Proof.
  intros Ht Hdp Hcomplete Hth Hbest Hsub
    [Hidle Hseen Hhas_idle Hhas_seen] Hb Hrun.
  simpl in *.
  destruct (BUILDINGS_positive b cfg Hb) as [Hd He].
  assert (Hpos : ∀ b' cfg', (b', cfg') ∈ seen → 0 < time cfg').
  { intros b' cfg' Hin. by destruct (BUILDINGS_positive b' cfg' (Hsub _ Hin)). }
  unfold try_building in Hrun.
  destruct (decide (time cfg ≤ t)) as [Hfit|Hfit].
  2: { replace (t >=? time cfg) with false in Hrun by lia.
       injection Hrun as <-. split; simpl; [done|..|done|].
       - intros b' cfg' [?|[= -> ->]%list_elem_of_singleton]%elem_of_app;
           [eauto|lia].
       - intros b' cfg' c0 c'
           [?|[= -> ->]%list_elem_of_singleton]%elem_of_app; [eauto|lia]. }
  replace (t >=? time cfg) with true in Hrun by lia.
  destruct (table_slot h k dp t (time cfg) Hdp Hcomplete Ht ltac:(lia))
    as (prev & Hidx & Hprev & Hprev_all).
  rewrite Hidx in Hrun. simpl in Hrun. unfold slot_complete in Hprev_all.
  simpl in Hprev_all.
  set (pp := V h (t - time cfg)) in *.
  set (np := pp + earning cfg * (h - t)) in *.
  assert (Hbound : ∀ t' c p, t' ≤ h → Sched h t' c p → p ≤ V h t')
    by (intros; by eapply Sched_bound).
  destruct (Z.gtb_spec np mp) as [Hgt|Hle].
  - destruct (extend_replace_ok b prev (sols_keys _ _ _ _ Hprev)
                (catalog_entry_name b cfg Hb)) as (news & Hnews & Hrep).
    rewrite Hrep in Hrun. simpl in Hrun. injection Hrun as <-.
    split; simpl.
    + lia.
    + intros b' cfg' [Hin|[= -> ->]%list_elem_of_singleton]%elem_of_app Hfit';
        [|fold pp np; lia].
      specialize (Hseen b' cfg' Hin Hfit'). lia.
    + intros c Hc. apply (Hbound (t - 1)) in Hc; lia.
    + intros b' cfg' c0 c'
        [Hin|[= -> ->]%list_elem_of_singleton]%elem_of_app Hfit' Hc0 Hc'.
      * specialize (Hseen b' cfg' Hin Hfit'). specialize (Hpos b' cfg' Hin).
        apply (Hbound (t - time cfg')) in Hc0; lia.
      * apply (incremented_elem_of_l b prev news c0); [done| |done].
        apply Hprev_all. by replace pp with (np - earning cfg * (h - t))
          by (subst np; lia).
  - destruct (Z.eqb_spec np mp) as [Heq|Hne].
    + destruct (extend_merge b prev best) as [merged|e] eqn:Hmerge;
        simpl in Hrun; [|done].
      injection Hrun as <-.
      destruct (extend_merge_complete b prev (sols_keys _ _ _ _ Hprev)
                  best merged (sols_keys _ _ _ _ Hbest) Hmerge)
        as [Hsubset Hall].
      split; simpl.
      * done.
      * intros b' cfg' [Hin|[= -> ->]%list_elem_of_singleton]%elem_of_app
          Hfit'; [eauto|fold pp np; lia].
      * intros c Hc. auto.
      * intros b' cfg' c0 c'
          [Hin|[= -> ->]%list_elem_of_singleton]%elem_of_app Hfit' Hc0 Hc';
          [by eauto|].
        apply (Hall c0); [|done]. apply Hprev_all.
        by replace pp with (mp - earning cfg * (h - t)) by (subst np; lia).
    + injection Hrun as <-. split; simpl.
      * done.
      * intros b' cfg' [Hin|[= -> ->]%list_elem_of_singleton]%elem_of_app
          Hfit'; [eauto|fold pp np; lia].
      * done.
      * intros b' cfg' c0 c'
          [Hin|[= -> ->]%list_elem_of_singleton]%elem_of_app Hfit' Hc0 Hc';
          [by eauto|].
        apply (Hbound (t - time cfg)) in Hc0; [|lia].
        fold pp in Hc0. subst np. lia.
Qed.

Lemma for_each_buildings_complete h k dp t (bs : list (string * config)) :
  t = Z.of_nat k + 1 →
  table_ok h k dp → table_complete h k dp → t ≤ h →
  bs ⊆ BUILDINGS →
  ∀ seen st st',
    seen ⊆ BUILDINGS →
    sols_ok h t st.1 st.2 →
    acc_complete h t seen st →
    for_each bs st (try_building h dp t) = Ok st' →
    acc_complete h t (seen ++ bs) st'.
Proof.
  intros Ht Hdp Hcomplete Hth.
  induction bs as [|[b cfg] bs IH]; intros Hbs seen [mp best] st' Hseen Hok Hacc;
    cbn [for_each].
  - intros [= <-]. by rewrite app_nil_r.
  - assert (Hb : (b, cfg) ∈ BUILDINGS) by (apply Hbs; left).
    destruct (try_building_ok h k dp t mp best b cfg Ht Hdp Hth Hok Hb)
      as (best1 & Hrun1 & Hok1).
    pose proof (try_building_complete h k dp t seen mp best b cfg _
                  Ht Hdp Hcomplete Hth Hok Hseen Hacc Hb Hrun1) as Hacc1.
    rewrite Hrun1. cbn [bind]. intros Hrest.
    replace (seen ++ (b, cfg) :: bs) with ((seen ++ [(b, cfg)]) ++ bs)
      by (by rewrite <- app_assoc).
    refine (IH _ (seen ++ [(b, cfg)]) (_, best1) st' _ Hok1 Hacc1 Hrest).
    + intros x Hx. apply Hbs. by right.
    + intros x [?| ->%list_elem_of_singleton]%elem_of_app; auto.
Qed.

Lemma dp_step_complete h k dp dp' :
  table_ok h k dp → table_complete h k dp → Z.of_nat k + 1 ≤ h →
  dp_step h dp (Z.of_nat k + 1) = Ok dp' →
  table_complete h (S k) dp'.
Proof.
  intros Hdp Hcomplete Hk. pose proof Hdp as [Hlen Hslots].
  destruct (Hslots k ltac:(lia)) as ([mp best] & Hlook & Hmp & Hbest).
  destruct (Hcomplete k ltac:(lia)) as (slot & Hlook' & Hslot).
  rewrite Hlook in Hlook'. injection Hlook' as <-.
  simpl in Hmp, Hbest. unfold slot_complete in Hslot. simpl in Hslot.
  unfold dp_step. replace (Z.of_nat k + 1 - 1) with (Z.of_nat k) by lia.
  rewrite (py_index_lookup dp k (mp, best)) by done. simpl.
  destruct (for_each BUILDINGS (mp, best) _) as [[mp' best']|e] eqn:Hloop;
    simpl; [|done].
  replace (Z.of_nat k + 1) with (Z.of_nat (S k)) at 1 by lia.
  rewrite py_setitem_insert by lia. intros [= <-].
  assert (Hacc : acc_complete h (Z.of_nat k + 1) BUILDINGS (mp', best')).
  { apply (for_each_buildings_complete h k dp (Z.of_nat k + 1) BUILDINGS
             eq_refl Hdp Hcomplete Hk ltac:(done) [] (mp, best));
      [by intros x ?%elem_of_nil|by apply sols_ok_idle| |done].
    replace (Z.of_nat k + 1 - 1) with (Z.of_nat k) by lia.
    split; simpl.
    - replace (Z.of_nat k + 1 - 1) with (Z.of_nat k) by lia. lia.
    - by intros b cfg ?%elem_of_nil.
    - replace (Z.of_nat k + 1 - 1) with (Z.of_nat k) by lia. done.
    - by intros b cfg c0 c' ?%elem_of_nil. }
  destruct Hacc as [_ _ Hhas_idle Hhas_seen]. simpl in *.
  intros i Hi. destruct (decide (i = S k)) as [->|Hne].
  - eexists. split; [apply list_lookup_insert_eq; lia|].
    intros c Hc. simpl in *.
    replace (Z.of_nat (S k)) with (Z.of_nat k + 1) in Hc by lia.
    remember (Z.of_nat k + 1) as t eqn:Ht.
    destruct Hc as [|t0 c p Hc|t0 c0 p0 b cfg c' Hb Hc0 Hc'].
    + lia.
    + apply Hhas_idle. by replace (t0 + 1 - 1) with t0 by lia.
    + destruct (BUILDINGS_positive b cfg Hb) as [Hd He].
      pose proof (Sched_nonneg _ _ _ _ Hc0).
      apply (Hhas_seen b cfg c0 c' Hb); [lia| |done].
      replace (t0 + time cfg - time cfg) with t0 by lia.
      by replace (p0 + earning cfg * (h - (t0 + time cfg)) -
                  earning cfg * (h - (t0 + time cfg))) with p0 by lia.
  - rewrite list_lookup_insert_ne by done. apply Hcomplete. lia.
Qed.

Lemma for_each_steps_complete h n : ∀ k dp dp',
  table_ok h k dp → table_complete h k dp → Z.of_nat (k + n) ≤ h →
  for_each ((λ j : nat, 1 + Z.of_nat j) <$> seq k n) dp (dp_step h) = Ok dp' →
  table_complete h (k + n) dp'.
Proof.
  induction n as [|n IH]; intros k dp dp' Hdp Hcomplete Hk; csimpl.
  - intros [= <-]. by rewrite Nat.add_0_r.
  - replace (1 + Z.of_nat k) with (Z.of_nat k + 1) by lia.
    destruct (dp_step_ok h k dp Hdp ltac:(lia)) as (dp1 & Hstep & Hdp1).
    rewrite Hstep. simpl. intros Hrest.
    replace (k + S n)%nat with (S k + n)%nat by lia.
    apply (IH (S k) dp1 dp' Hdp1); [|lia|done].
    apply (dp_step_complete h k dp dp1 Hdp Hcomplete); [lia|done].
Qed.

Lemma Sched_at_start h t c p : Sched h t c p → t = 0 → c = initial_solution.
Proof.
  intros [|t0 c0 p0 Hc|t0 c0 p0 b cfg c' Hb Hc0 Hc'] Ht.
  - done.
  - apply Sched_nonneg in Hc. lia.
  - apply Sched_nonneg in Hc0. destruct (BUILDINGS_positive b cfg Hb). lia.
Qed.

Lemma table_complete_start h :
  0 ≤ h →
  table_complete h 0 (py_list_repeat (0, [initial_solution]) (h + 1)).
Proof.
  intros Hh i Hi. replace i with 0%nat by lia.
  exists (0, [initial_solution]). split.
  - unfold py_list_repeat. apply lookup_replicate_2. lia.
  - intros c Hc. simpl in *.
    rewrite (Sched_at_start _ _ _ _ Hc eq_refl). left.
Qed.

Lemma solve_complete h p sols :
  0 ≤ h → solve_dp_all_solutions h = Ok (p, sols) →
  ∀ c, Sched h h c p → c ∈ sols.
Proof.
  intros Hh. unfold solve_dp_all_solutions, py_range.
  replace (h + 1 - 1) with h by lia.
  destruct (for_each _ _ _) as [dp|e] eqn:Hloop; simpl; [|done].
  pose proof (for_each_steps_complete h (Z.to_nat h) 0 _ dp
                (table_ok_start h Hh) (table_complete_start h Hh)
                ltac:(lia) Hloop) as Hcomplete.
  destruct (Hcomplete (Z.to_nat h) ltac:(lia)) as (slot & Hlook & Hslot).
  apply py_index_lookup in Hlook. rewrite Z2Nat.id in Hlook, Hslot by done.
  rewrite Hlook. intros [= ->]. exact Hslot.
Qed.

Lemma combination_of_keys order : in_catalog_order (combination_of order).
Proof.
  unfold in_catalog_order, combination_of.
  rewrite <- list_fmap_compose. by apply list_fmap_ext.
Qed.

Lemma count_of_combination_of order b :
  b ∈ BUILDINGS.*1 → count_of b (combination_of order) = occurrences b order.
Proof.
  intros ([b' cfg] & -> & Hin)%list_elem_of_fmap. simpl.
  apply count_of_entry.
  - apply catalog_order_NoDup, combination_of_keys.
  - unfold combination_of. apply list_elem_of_fmap. by exists (b', cfg).
Qed.

Lemma occurrences_snoc k order b :
  occurrences k (order ++ [b]) =
  if decide (k = b) then occurrences k order + 1 else occurrences k order.
Proof.
  unfold occurrences. rewrite filter_app, length_app.
  rewrite filter_cons, filter_nil.
  destruct (decide (b = k)) as [->|Hne].
  - rewrite decide_True by done. simpl. lia.
  - rewrite decide_False by congruence. simpl. lia.
Qed.

Lemma combination_of_snoc order b :
  b ∈ BUILDINGS.*1 →
  dict_iadd b 1 (combination_of order) = Ok (combination_of (order ++ [b])).
Proof.
  intros Hb.
  destruct (dict_iadd_catalog b _ (combination_of_keys order) Hb)
    as (c' & Hc' & Hkeys).
  rewrite Hc'. f_equal. apply counts_ext.
  - by rewrite Hkeys, (combination_of_keys (order ++ [b])).
  - by apply catalog_order_NoDup.
  - intros k Hk. rewrite Hkeys in Hk.
    rewrite (count_of_iadd b k _ c' Hc').
    rewrite !count_of_combination_of by done.
    rewrite occurrences_snoc. by destruct (decide (k = b)) as [->|].
Qed.

Lemma combination_of_nil : combination_of [] = initial_solution.
Proof. vm_compute. reflexivity. Qed.

(** An order of construction that fits in the horizon is a schedule of the
    table, for the combination it builds and the profit it earns. *)
Lemma order_Sched h order :
  Forall (λ b, b ∈ BUILDINGS.*1) order → order_time order ≤ h →
  ∃ q, simulate_order h order 0 = Ok q ∧
       Sched h (order_time order) (combination_of order) q.
Proof.
  induction order as [|b order IH] using rev_ind; intros Hnames Htime.
  - exists 0. split; [done|]. rewrite combination_of_nil. constructor.
  - apply Forall_app in Hnames as [Hnames Hb].
    apply Forall_singleton, catalog_name_getitem in Hb as [cfg Hget].
    pose proof (proj1 (getitem_BUILDINGS b cfg) Hget) as Hin.
    destruct (BUILDINGS_positive b cfg Hin) as [Hd He].
    rewrite (order_time_snoc order b cfg) in * by done.
    destruct (IH Hnames ltac:(lia)) as (q & Hq & Hs).
    exists (q + earning cfg * (h - (order_time order + time cfg))). split.
    + rewrite (simulate_order_snoc h order b cfg q) by done.
      rewrite Z.max_l by lia. reflexivity.
    + apply (Sched_build h _ (combination_of order) q b cfg); [done..|].
      by apply combination_of_snoc, (catalog_entry_name b cfg).
Qed.

(** X1: the solution list is complete.  On a horizon that is not negative,
    whenever some order of construction fits in the horizon and its
    back-to-back simulation earns the returned maximum profit, the
    combination that this order builds is in the returned list. *)
Theorem solve_lists_every_optimal_combination
    (h : Z) (order : list string) (p : Z) (sols : list dict) :
  0 ≤ h →
  order_time order ≤ h →
  solve_dp_all_solutions h = Ok (p, sols) →
  simulate_order h order 0 = Ok p →
  combination_of order ∈ sols.
Proof.
  intros Hh Htime Hrun Hsim.
  pose proof (simulate_order_Ok_names _ _ _ _ Hsim) as Hnames.
  destruct (order_Sched h order Hnames Htime) as (q & Hq & Hs).
  rewrite Hsim in Hq. injection Hq as <-.
  apply (solve_complete h p sols Hh Hrun).
  by apply (Sched_later h (order_time order)).
Qed.

Lemma solve_lists_every_optimal_combination_witness :
  combination_of ["Theatre"; "Pub"; "Pub"]
  ∈ [[("Theatre", 2); ("Pub", 0); ("Commercial Park", 0)];
     [("Theatre", 1); ("Pub", 2); ("Commercial Park", 0)];
     [("Theatre", 2); ("Pub", 1); ("Commercial Park", 0)]].
Proof.
  apply (solve_lists_every_optimal_combination 14
           ["Theatre"; "Pub"; "Pub"] 19500).
  - lia.
  - vm_compute. discriminate.
  - vm_compute. reflexivity.
  - vm_compute. reflexivity.
Defined.

(** * The command line layer *)

(** ** [format_solution] *)

Lemma getitem_code_Theatre :
  getitem "Theatre" BUILDINGS
  = Ok {| time := 5; earning := 1500; code := "T" |}.
Proof. reflexivity. Qed.

Lemma getitem_code_Pub :
  getitem "Pub" BUILDINGS = Ok {| time := 4; earning := 1000; code := "P" |}.
Proof. reflexivity. Qed.

Lemma getitem_code_Park :
  getitem "Commercial Park" BUILDINGS
  = Ok {| time := 10; earning := 3000; code := "C" |}.
Proof. reflexivity. Qed.

Lemma format_solution_unfold (c : dict) :
  format_solution c =
  (let! a := getitem "Theatre" c in
   let! b := getitem "Pub" c in
   let! n := getitem "Commercial Park" c in
   Ok (py_join " " ["T: " +:+ py_str a; "P: " +:+ py_str b;
                    "C: " +:+ py_str n])).
Proof.
  unfold format_solution. cbn [for_each].
  rewrite getitem_code_Theatre, getitem_code_Pub, getitem_code_Park.
  cbn [bind code].
  destruct (getitem "Theatre" c) as [a|e]; cbn [bind]; [|done].
  destruct (getitem "Pub" c) as [b|e]; cbn [bind]; [|done].
  destruct (getitem "Commercial Park" c) as [n|e]; cbn [bind]; done.
Qed.

Lemma getitem_count_of (k : string) (c : dict) v :
  getitem k c = Ok v → count_of k c = v.
Proof. unfold count_of. by intros ->. Qed.

Lemma py_str_inj a b : py_str a = py_str b → a = b.
Proof.
  unfold py_str. intros H.
  assert (Hint : Z.to_int a = Z.to_int b).
  { pose proof (NilEmpty.isi (Z.to_int a)) as Ha.
    rewrite H, NilEmpty.isi in Ha. by injection Ha. }
  by rewrite <- (DecimalZ.of_to a), <- (DecimalZ.of_to b), Hint.
Qed.

Lemma string_of_uint_no_space d :
  ¬ In " "%char (String.list_ascii_of_string (NilEmpty.string_of_uint d)).
Proof.
  induction d; simpl; [tauto|intros [Heq|Hin]; [discriminate Heq|tauto]..].
Qed.

Lemma py_str_no_space a :
  ¬ In " "%char (String.list_ascii_of_string (py_str a)).
Proof.
  unfold py_str, NilEmpty.string_of_int.
  destruct (Z.to_int a) as [d|d]; simpl.
  - apply string_of_uint_no_space.
  - intros [Heq|Hin]; [discriminate Heq|].
    by apply string_of_uint_no_space in Hin.
Qed.

Lemma split_at_space (u u' r r' : string) :
  ¬ In " "%char (String.list_ascii_of_string u) →
  ¬ In " "%char (String.list_ascii_of_string u') →
  (u +:+ String " " r) = (u' +:+ String " " r') →
  u = u' ∧ r = r'.
Proof.
  revert u'. induction u as [|c u IH]; intros [|c' u'] Hu Hu'; simpl in *.
  - by intros [= ->].
  - intros [= <- _]. tauto.
  - intros [= -> _]. tauto.
  - intros [= <- Heq]. destruct (IH u') as [-> ->]; [tauto..|done|done].
Qed.

Lemma label_inj a b n a' b' n' :
  py_join " " ["T: " +:+ py_str a; "P: " +:+ py_str b; "C: " +:+ py_str n]
  = py_join " " ["T: " +:+ py_str a'; "P: " +:+ py_str b';
                 "C: " +:+ py_str n'] →
  a = a' ∧ b = b' ∧ n = n'.
Proof.
  unfold py_join. cbn [String.concat]. simpl. intros [= H].
  apply split_at_space in H as [Ha [= H]]; [|apply py_str_no_space..].
  apply split_at_space in H as [Hb [= Hn]]; [|apply py_str_no_space..].
  auto using py_str_inj.
Qed.

(** X9: [format_solution] is a faithful label that does not depend on the
    order of the entries: two dicts that it accepts get the same string
    exactly when they give the same counts to Theatre, Pub and Commercial
    Park. *)
Theorem format_solution_same_label_iff_same_counts
    (c1 c2 : dict) (s1 s2 : string) :
  format_solution c1 = Ok s1 →
  format_solution c2 = Ok s2 →
  (s1 = s2 ↔
   count_of "Theatre" c1 = count_of "Theatre" c2 ∧
   count_of "Pub" c1 = count_of "Pub" c2 ∧
   count_of "Commercial Park" c1 = count_of "Commercial Park" c2).
Proof.
  rewrite !format_solution_unfold. unfold count_of.
  destruct (getitem "Theatre" c1) as [a1|]; cbn [bind]; [|done].
  destruct (getitem "Pub" c1) as [b1|]; cbn [bind]; [|done].
  destruct (getitem "Commercial Park" c1) as [n1|]; cbn [bind]; [|done].
  destruct (getitem "Theatre" c2) as [a2|]; cbn [bind]; [|done].
  destruct (getitem "Pub" c2) as [b2|]; cbn [bind]; [|done].
  destruct (getitem "Commercial Park" c2) as [n2|]; cbn [bind]; [|done].
  intros [= <-] [= <-]. split.
  - apply label_inj.
  - by intros (-> & -> & ->).
Qed.

Lemma format_solution_same_label_iff_same_counts_witness :
  "T: 1 P: 2 C: 0" = "T: 1 P: 2 C: 0" ↔
  count_of "Theatre" [("Pub", 2); ("Theatre", 1); ("Commercial Park", 0)]
  = count_of "Theatre" [("Theatre", 1); ("Pub", 2); ("Commercial Park", 0)] ∧
  count_of "Pub" [("Pub", 2); ("Theatre", 1); ("Commercial Park", 0)]
  = count_of "Pub" [("Theatre", 1); ("Pub", 2); ("Commercial Park", 0)] ∧
  count_of "Commercial Park"
    [("Pub", 2); ("Theatre", 1); ("Commercial Park", 0)]
  = count_of "Commercial Park"
      [("Theatre", 1); ("Pub", 2); ("Commercial Park", 0)].
Proof.
  apply (format_solution_same_label_iff_same_counts
           [("Pub", 2); ("Theatre", 1); ("Commercial Park", 0)]
           [("Theatre", 1); ("Pub", 2); ("Commercial Park", 0)]);
    vm_compute; reflexivity.
Defined.

(** X10: [format_solution] fails exactly when the dict lacks one of the
    three keys Theatre, Pub, Commercial Park, and then with [KeyError];
    entries under other names and the sign of the counts do not matter. *)
Theorem format_solution_fails_iff_key_missing (c : dict) :
  ((∃ s, format_solution c = Ok s) ↔
   "Theatre" ∈ c.*1 ∧ "Pub" ∈ c.*1 ∧ "Commercial Park" ∈ c.*1) ∧
  (format_solution c = Raise "KeyError" ↔
   ¬ ("Theatre" ∈ c.*1 ∧ "Pub" ∈ c.*1 ∧ "Commercial Park" ∈ c.*1)).
Proof.
  rewrite format_solution_unfold.
  destruct (getitem "Theatre" c) as [a|e] eqn:Ha; cbn [bind].
  2: { apply getitem_Raise in Ha as [-> Ha].
       split; split; try done; try tauto. by intros [? ?]. }
  destruct (getitem "Pub" c) as [b|e] eqn:Hb; cbn [bind].
  2: { apply getitem_Raise in Hb as [-> Hb].
       split; split; try done; try tauto. by intros [? ?]. }
  destruct (getitem "Commercial Park" c) as [n|e] eqn:Hn; cbn [bind].
  2: { apply getitem_Raise in Hn as [-> Hn].
       split; split; try done; try tauto. by intros [? ?]. }
  assert (∀ k v, getitem k c = Ok v → k ∈ c.*1) as Hkey.
  { intros k v Hk%getitem_Ok_elem_of. apply list_elem_of_fmap.
    by exists (k, v). }
  split; split; try done; eauto 6.
  intros Hno. exfalso. apply Hno. repeat split; eauto.
Qed.

(** ** The timeline of [print_solution_details] *)

Lemma Cli_bind_Ok {A B} (m : Cli.M A) (k : A → Cli.M B) out a out1 :
  m out = (Ok a, out1) → Cli.bind m k out = k a out1.
Proof. unfold Cli.bind. by intros ->. Qed.

Lemma Cli_bind_lift {A B} (r : result A) (k : A → Cli.M B) out a :
  r = Ok a → Cli.bind (Cli.lift r) k out = k a out.
Proof. by intros ->. Qed.

Lemma Cli_bind_print {B} (s : string) (k : unit → Cli.M B) out :
  Cli.bind (Cli.print s) k out = k tt (out ++ [s]).
Proof. reflexivity. Qed.

Lemma rows_contiguous_app t rows1 rows2 :
  rows_contiguous t rows1 → rows_contiguous (rows_end t rows1) rows2 →
  rows_contiguous t (rows1 ++ rows2).
Proof.
  revert t. induction rows1 as [|r rows1 IH]; intros t; simpl; [done|].
  intros [-> H1] H2. split; [done|]. by apply IH.
Qed.

Lemma rows_end_app t rows1 rows2 :
  rows_end t (rows1 ++ rows2) = rows_end (rows_end t rows1) rows2.
Proof. unfold rows_end. by rewrite foldl_app. Qed.

Lemma rows_total_app rows1 rows2 :
  rows_total (rows1 ++ rows2) = rows_total rows1 + rows_total rows2.
Proof.
  unfold rows_total. induction rows1 as [|r rows1 IH]; simpl; [done|].
  rewrite IH. lia.
Qed.

Lemma rows_end_after h t rows :
  rows_contiguous t rows → Forall (row_ok h) rows → rows ≠ [] →
  t < rows_end t rows.
Proof.
  intros Hc Hok. revert t Hc.
  induction Hok as [|r rows [Hr _] _ IH]; intros t Hc Hne; [done|].
  destruct Hc as [<- Hc]. unfold rows_end in *. simpl.
  destruct rows as [|r' rows]; simpl; [done|].
  specialize (IH (row_end r) Hc ltac:(done)). simpl in IH. lia.
Qed.

Lemma timeline_rounds_rows h b cfg :
  getitem b BUILDINGS = Ok cfg →
  ∀ n i t p out,
    ∃ rows,
      Cli.timeline_rounds h b (time cfg) n i t out
        = (Ok (t + Z.of_nat n * time cfg), out ++ (render_row <$> rows)) ∧
      rows_contiguous t rows ∧ Forall (row_ok h) rows ∧
      rows_end t rows = t + Z.of_nat n * time cfg ∧
      length rows = n ∧
      cp_instances h (time cfg) (earning cfg) n (p, t)
        = (p + rows_total rows, t + Z.of_nat n * time cfg).
Proof.
  intros Hb. pose proof Hb as Hin.
  apply getitem_BUILDINGS, BUILDINGS_positive in Hin as [Hd He].
  induction n as [|n IH]; intros i t p out.
  - exists []. replace (t + Z.of_nat 0 * time cfg) with t by lia.
    simpl. rewrite app_nil_r. unfold Cli.ret, rows_end, rows_total.
    simpl. replace (p + 0) with p by lia.
    repeat split; done.
  - set (e := t + time cfg).
    set (total := if h - e >? 0 then earning cfg * (h - e) else 0).
    set (r := {| row_building := b; row_index := i; row_start := t;
                 row_end := e; row_rate := earning cfg;
                 row_periods := h - e; row_total := total |}).
    destruct (IH (i + 1) e
                (if h - e >? 0 then p + earning cfg * (h - e) else p)
                (out ++ [render_row r]))
      as (rows & Hrun & Hc & Hok & Hend & Hlen & Hcp).
    exists (r :: rows). cbn [Cli.timeline_rounds cp_instances].
    unfold Cli.bind at 1, Cli.lift. rewrite Hb.
    unfold Cli.bind at 1, Cli.print. fold e. fold total.
    change (timeline_line b i t e (earning cfg) (h - e) total)
      with (render_row r).
    rewrite Hrun. fold e. rewrite Hcp.
    split; [|split; [|split; [|split; [|split]]]].
    + f_equal; [f_equal; lia|]. rewrite <- app_assoc. done.
    + by split.
    + constructor; [|done]. unfold row_ok. subst r total e. simpl.
      split; [lia|]. split; [done|].
      destruct (Z.gtb_spec (h - (t + time cfg)) 0);
        [rewrite Z.max_l by lia|rewrite Z.max_r by lia]; lia.
    + unfold rows_end in *. simpl. rewrite Hend. lia.
    + simpl. by rewrite Hlen.
    + apply pair_equal_spec. split; [|lia].
      unfold rows_total. simpl. fold (rows_total rows). subst total.
      destruct (h - e >? 0); lia.
Qed.

Lemma timeline_items_rows h (c : dict) :
  ∀ t p out p' t',
    cp_items h c (p, t) = Ok (p', t') →
    ∃ rows,
      Cli.timeline_items h c t out = (Ok t', out ++ (render_row <$> rows)) ∧
      rows_contiguous t rows ∧ Forall (row_ok h) rows ∧
      rows_end t rows = t' ∧ rows_total rows = p' - p.
Proof.
  induction c as [|[b n] c IH]; intros t p out p' t'.
  - simpl. intros [= <- <-]. exists []. rewrite app_nil_r.
    unfold Cli.ret, rows_end, rows_total. simpl.
    repeat split; try done. lia.
  - cbn [cp_items Cli.timeline_items]. destruct (n >? 0); [|apply IH].
    destruct (getitem b BUILDINGS) as [cfg|e] eqn:Hb; cbn [bind]; [|done].
    destruct (timeline_rounds_rows h b cfg Hb (Z.to_nat n) 0 t p out)
      as (rows1 & Hrun1 & Hc1 & Hok1 & Hend1 & _ & Hcp).
    rewrite Hcp. intros Hrest.
    destruct (IH _ _ (out ++ (render_row <$> rows1)) p' t' Hrest)
      as (rows2 & Hrun2 & Hc2 & Hok2 & Hend2 & Htot2).
    exists (rows1 ++ rows2).
    unfold Cli.bind at 1, Cli.lift. rewrite (Cli_bind_Ok _ _ _ _ _ Hrun1).
    rewrite Hrun2. split; [|split; [|split; [|split]]].
    + by rewrite fmap_app, app_assoc.
    + apply rows_contiguous_app; [done|]. by rewrite Hend1.
    + by apply Forall_app.
    + by rewrite rows_end_app, Hend1.
    + rewrite rows_total_app. lia.
Qed.

Lemma validate_solution_Ok_items h (c : dict) v p m :
  validate_solution h c = Ok (v, p, m) →
  ∃ T, cp_items h c (0, 0) = Ok (p, T) ∧
       v = (T <=? h) ∧ m = format_message T h p.
Proof.
  unfold validate_solution. rewrite vs_items_cp.
  destruct (cp_items h c (0, 0)) as [[p0 T]|e]; simpl; [|done].
  intros [= <- <- <-]. by exists T.
Qed.

Lemma print_solution_details_rows
    (h : Z) (c : dict) (idx : Z) (out : list string)
    (formatted : string) (is_valid : bool) (profit : Z) (message : string) :
  format_solution c = Ok formatted →
  validate_solution h c = Ok (is_valid, profit, message) →
  ∃ rows,
    Cli.print_solution_details h c idx out =
    (Ok tt,
     out ++
     [newline +:+ "📋 SOLUTION #" +:+ py_str (idx + 1);
      py_str_repeat "-" 40;
      "Building Configuration: " +:+ formatted;
      "Validation: " +:+ (if is_valid then "✅ Valid" else "❌ Invalid");
      "Details: " +:+ message;
      newline +:+ "🏗️  Construction Timeline:"] ++
     (render_row <$> rows) ++
     match rows with
     | [] => ["  No buildings constructed"]
     | _ :: _ => []
     end) ∧
    rows_contiguous 0 rows ∧
    Forall (row_ok h) rows ∧
    rows_total rows = profit ∧
    message = format_message (rows_end 0 rows) h profit ∧
    is_valid = (rows_end 0 rows <=? h).
Proof.
  intros Hfmt Hval.
  destruct (validate_solution_Ok_items h c _ _ _ Hval) as (T & Hcp & Hv & Hm).
  set (head := [newline +:+ "📋 SOLUTION #" +:+ py_str (idx + 1);
                py_str_repeat "-" 40;
                "Building Configuration: " +:+ formatted;
                "Validation: "
                +:+ (if is_valid then "✅ Valid" else "❌ Invalid");
                "Details: " +:+ message;
                newline +:+ "🏗️  Construction Timeline:"]).
  destruct (timeline_items_rows h c 0 0 (out ++ head) profit T Hcp)
    as (rows & Hrun & Hc & Hok & Hend & Htot).
  exists rows. split; [|split; [done|split; [done|split; [lia|]]]].
  - unfold Cli.print_solution_details.
    unfold Cli.bind at 1, Cli.print. unfold Cli.bind at 1.
    unfold Cli.bind at 1, Cli.lift. rewrite Hfmt.
    unfold Cli.bind at 1. unfold Cli.bind at 1. rewrite Hval.
    unfold Cli.bind at 1. unfold Cli.bind at 1. unfold Cli.bind at 1.
    unfold Cli.bind.
    replace (((((((out ++ _) ++ _) ++ _) ++ _) ++ _) ++ _))
      with (out ++ head) by (subst head; by rewrite <- !app_assoc).
    rewrite Hrun. rewrite <- Hend in *.
    destruct rows as [|r rows].
    + unfold rows_end. simpl. unfold Cli.print.
      by rewrite app_nil_r, <- !app_assoc.
    + pose proof (rows_end_after h 0 (r :: rows) Hc Hok ltac:(done)) as Hpos.
      replace (rows_end 0 (r :: rows) =? 0) with false by lia.
      unfold Cli.ret. by rewrite app_nil_r, <- !app_assoc.
  - by rewrite Hend.
Qed.

(** X11: the timeline that [print_solution_details] prints agrees with its
    validation line.  For a dict that [format_solution] and
    [validate_solution] accept, the call prints six heading lines and then
    one line per built instance; the instances are laid end to end from
    time 0, each shows the periods left after its end and the rate times
    those periods (nothing when none is left), the earnings shown add up to
    the validated profit, the last end is the time used in the message,
    and the line about no buildings comes exactly when there is no row. *)
Theorem print_solution_details_timeline
    (h : Z) (c : dict) (idx : Z) (out : list string)
    (formatted : string) (is_valid : bool) (profit : Z) (message : string) :
  format_solution c = Ok formatted →
  validate_solution h c = Ok (is_valid, profit, message) →
  ∃ rows,
    Cli.print_solution_details h c idx out =
    (Ok tt,
     out ++
     [newline +:+ "📋 SOLUTION #" +:+ py_str (idx + 1);
      py_str_repeat "-" 40;
      "Building Configuration: " +:+ formatted;
      "Validation: " +:+ (if is_valid then "✅ Valid" else "❌ Invalid");
      "Details: " +:+ message;
      newline +:+ "🏗️  Construction Timeline:"] ++
     (render_row <$> rows) ++
     match rows with
     | [] => ["  No buildings constructed"]
     | _ :: _ => []
     end) ∧
    rows_contiguous 0 rows ∧
    Forall (row_ok h) rows ∧
    rows_total rows = profit ∧
    message = format_message (rows_end 0 rows) h profit ∧
    is_valid = (rows_end 0 rows <=? h).
Proof. apply print_solution_details_rows. Qed.

Lemma print_solution_details_timeline_witness :
  ∃ rows,
    Cli.print_solution_details 14
      [("Pub", 2); ("Theatre", 1); ("Commercial Park", 0); ("Cinema", 0)]
      2 ["before"] =
    (Ok tt,
     ["before"] ++
     [newline +:+ "📋 SOLUTION #" +:+ py_str (2 + 1);
      py_str_repeat "-" 40;
      "Building Configuration: " +:+ "T: 1 P: 2 C: 0";
      "Validation: " +:+ (if true then "✅ Valid" else "❌ Invalid");
      "Details: " +:+ "Time used: 13/14, Profit: $17,500";
      newline +:+ "🏗️  Construction Timeline:"] ++
     (render_row <$> rows) ++
     match rows with
     | [] => ["  No buildings constructed"]
     | _ :: _ => []
     end) ∧
    rows_contiguous 0 rows ∧
    Forall (row_ok 14) rows ∧
    rows_total rows = 17500 ∧
    "Time used: 13/14, Profit: $17,500"
    = format_message (rows_end 0 rows) 14 17500 ∧
    true = (rows_end 0 rows <=? 14).
Proof.
  apply (print_solution_details_timeline 14
           [("Pub", 2); ("Theatre", 1); ("Commercial Park", 0); ("Cinema", 0)]
           2 ["before"]
           "T: 1 P: 2 C: 0" true 17500 "Time used: 13/14, Profit: $17,500").
  - vm_compute. reflexivity.
  - vm_compute. reflexivity.
Defined.

(** ** [print_summary] and [batch_mode] on what the optimizer returns *)

Lemma format_solution_catalog_order (c : dict) :
  in_catalog_order c → ∃ s, format_solution c = Ok s.
Proof.
  intros Hc. rewrite format_solution_unfold.
  assert (Hkey : ∀ k, k ∈ BUILDINGS.*1 → ∃ v, getitem k c = Ok v).
  { intros k Hk. apply getitem_key. by rewrite Hc. }
  destruct (Hkey "Theatre") as [a ->];
    [apply (catalog_entry_name _ _ (proj1 (getitem_BUILDINGS _ _)
                                      getitem_code_Theatre))|].
  destruct (Hkey "Pub") as [b ->];
    [apply (catalog_entry_name _ _ (proj1 (getitem_BUILDINGS _ _)
                                      getitem_code_Pub))|].
  destruct (Hkey "Commercial Park") as [n ->];
    [apply (catalog_entry_name _ _ (proj1 (getitem_BUILDINGS _ _)
                                      getitem_code_Park))|].
  simpl. eauto.
Qed.

Lemma solution_entry h p (sols : list dict) c :
  slot_ok h h (p, sols) → c ∈ sols →
  ∃ s q m,
    format_solution c = Ok s ∧
    validate_solution h c = Ok (true, q, m) ∧ q ≤ p.
Proof.
  intros Hok Hc.
  destruct (solution_facts h p sols c Hok Hc)
    as (Hord & Hnn & Htime & _ & q & Hq & Hqp).
  destruct (format_solution_catalog_order c Hord) as [s Hs].
  destruct (validate_solution_canonical h c Hord Hnn) as (q' & Hq' & Hv).
  rewrite Hq in Hq'. injection Hq' as <-.
  exists s, q, (format_message (total_time c) h q).
  split; [done|]. split; [|done].
  rewrite Hv. by replace (total_time c <=? h) with true by lia.
Qed.

Lemma Cli_for_each_appends {A} (xs : list A) (body : unit → A → Cli.M unit) :
  (∀ x out, x ∈ xs → ∃ lines, body tt x out = (Ok tt, out ++ lines)) →
  ∀ out, ∃ lines, Cli.for_each xs tt body out = (Ok tt, out ++ lines).
Proof.
  induction xs as [|x xs IH]; intros Hbody out; simpl.
  - exists []. by rewrite app_nil_r.
  - destruct (Hbody x out ltac:(left)) as (l1 & Hrun1).
    destruct (IH ltac:(intros y o Hy; apply Hbody; by right) (out ++ l1))
      as (l2 & Hrun2).
    exists (l1 ++ l2). rewrite (Cli_bind_Ok _ _ _ _ _ Hrun1), Hrun2.
    by rewrite app_assoc.
Qed.

Lemma summary_loop h p k (sols : list dict) :
  Forall (λ c, ∃ s q m, format_solution c = Ok s ∧
                        validate_solution h c = Ok (true, q, m) ∧ q ≤ p)
    sols →
  ∀ out,
    ∃ entries : list (string * Z),
      Forall2 (λ c e, format_solution c = Ok e.1 ∧
                      (∃ m, validate_solution h c = Ok (true, e.2, m)) ∧
                      e.2 ≤ p) sols entries ∧
      Cli.for_each (zip (Z.of_nat <$> seq k (length sols)) sols) tt
        (λ _ '(i, solution),
           Cli.bind (Cli.lift (format_solution solution)) (λ formatted,
           Cli.bind (Cli.lift (validate_solution h solution))
             (λ '(is_valid, calculated_profit, _),
           Cli.print (summary_line is_valid i formatted calculated_profit))))
        out =
      (Ok tt,
       out ++
       ((λ ie : Z * (string * Z), summary_line true ie.1 ie.2.1 ie.2.2)
        <$> zip (Z.of_nat <$> seq k (length entries)) entries)).
Proof.
  intros Hsols. revert k.
  induction Hsols as [|c sols (s & q & m & Hs & Hv & Hq) _ IH]; intros k out.
  - exists []. split; [constructor|]. simpl. by rewrite app_nil_r.
  - destruct (IH (S k) (out ++ [summary_line true (Z.of_nat k) s q]))
      as (entries & Hall & Hrun).
    exists ((s, q) :: entries). split.
    + constructor; [|done]. simpl. eauto.
    + csimpl. rewrite (Cli_bind_Ok _ _ out tt
                          (out ++ [summary_line true (Z.of_nat k) s q])).
      * rewrite Hrun. by rewrite <- app_assoc.
      * by rewrite (Cli_bind_lift _ _ _ _ Hs), (Cli_bind_lift _ _ _ _ Hv).
Qed.

Lemma print_summary_shape
    (h p : Z) (sols : list dict) (out : list string) :
  0 ≤ h →
  solve_dp_all_solutions h = Ok (p, sols) →
  ∃ entries : list (string * Z),
    Forall2 (λ c e, format_solution c = Ok e.1 ∧
                    (∃ m, validate_solution h c = Ok (true, e.2, m)) ∧
                    e.2 ≤ p) sols entries ∧
    Cli.print_summary h p sols out =
    (Ok tt,
     out ++
     [newline +:+ "📊 SUMMARY";
      py_str_repeat "=" 80;
      "Time Units Available: " +:+ py_str h;
      "Maximum Profit: $" +:+ py_format_comma p;
      "Number of Optimal Solutions: " +:+ py_str (Z.of_nat (length sols))] ++
     if Z.of_nat (length sols) >? 1 then
       (newline +:+ "🏆 All Optimal Solutions:") ::
       ((λ ie : Z * (string * Z), summary_line true ie.1 ie.2.1 ie.2.2)
        <$> py_enumerate entries)
     else
       (newline +:+ "🏆 Optimal Solution:") ::
       ((λ e : string * Z, single_line true e.1 e.2) <$> entries)).
Proof.
  intros Hh Hrun.
  destruct (solve_ok h Hh) as (slot & Hrun' & Hok).
  rewrite Hrun in Hrun'. injection Hrun' as <-.
  assert (Hall : Forall (λ c, ∃ s q m, format_solution c = Ok s ∧
                   validate_solution h c = Ok (true, q, m) ∧ q ≤ p) sols).
  { apply Forall_forall. intros c Hc. by apply (solution_entry h p sols). }
  unfold Cli.print_summary. rewrite !Cli_bind_print.
  set (head := [newline +:+ "📊 SUMMARY";
      py_str_repeat "=" 80;
      "Time Units Available: " +:+ py_str h;
      "Maximum Profit: $" +:+ py_format_comma p;
      "Number of Optimal Solutions: " +:+ py_str (Z.of_nat (length sols))]).
  replace (((((out ++ _) ++ _) ++ _) ++ _) ++ _)
    with (out ++ head) by (subst head; by rewrite <- !app_assoc).
  destruct (Z.gtb_spec (Z.of_nat (length sols)) 1) as [Hmany|Hone].
  - rewrite Cli_bind_print.
    destruct (summary_loop h p 0 sols Hall
                ((out ++ head) ++ [newline +:+ "🏆 All Optimal Solutions:"]))
      as (entries & Hentries & Hloop).
    exists entries. split; [done|].
    unfold py_enumerate. rewrite Hloop.
    f_equal. rewrite <- !app_assoc. done.
  - destruct Hok as [_ [Hne _ _ _]]. simpl in Hne.
    destruct sols as [|c [|c' sols]]; [done| |simpl in Hone; lia].
    apply Forall_singleton in Hall as (s & q & m & Hs & Hv & Hq).
    exists [(s, q)]. split.
    + constructor; [|constructor]. simpl. eauto.
    + rewrite Cli_bind_print.
      rewrite (Cli_bind_lift _ _ _ c) by reflexivity.
      rewrite (Cli_bind_lift _ _ _ _ Hs).
      rewrite (Cli_bind_lift _ _ _ c) by reflexivity.
      rewrite (Cli_bind_lift _ _ _ _ Hv).
      unfold Cli.print. simpl. f_equal. by rewrite <- !app_assoc.
Qed.

(** X12: on what the optimizer returns for a horizon that is not negative
    [print_summary] does not fail, and every solution it lists is marked
    valid: after the five heading lines comes one line per solution, with
    the label of [format_solution], the mark for a valid solution and a
    profit that [validate_solution] computes and that is at most the
    maximum profit. *)
Theorem print_summary_lists_valid_solutions
    (h p : Z) (sols : list dict) (out : list string) :
  0 ≤ h →
  solve_dp_all_solutions h = Ok (p, sols) →
  ∃ entries : list (string * Z),
    Forall2 (λ c e, format_solution c = Ok e.1 ∧
                    (∃ m, validate_solution h c = Ok (true, e.2, m)) ∧
                    e.2 ≤ p) sols entries ∧
    Cli.print_summary h p sols out =
    (Ok tt,
     out ++
     [newline +:+ "📊 SUMMARY";
      py_str_repeat "=" 80;
      "Time Units Available: " +:+ py_str h;
      "Maximum Profit: $" +:+ py_format_comma p;
      "Number of Optimal Solutions: " +:+ py_str (Z.of_nat (length sols))] ++
     if Z.of_nat (length sols) >? 1 then
       (newline +:+ "🏆 All Optimal Solutions:") ::
       ((λ ie : Z * (string * Z), summary_line true ie.1 ie.2.1 ie.2.2)
        <$> py_enumerate entries)
     else
       (newline +:+ "🏆 Optimal Solution:") ::
       ((λ e : string * Z, single_line true e.1 e.2) <$> entries)).
Proof. apply print_summary_shape. Qed.

Lemma print_summary_lists_valid_solutions_witness :
  ∃ entries : list (string * Z),
    Forall2 (λ c e, format_solution c = Ok e.1 ∧
                    (∃ m, validate_solution 5 c = Ok (true, e.2, m)) ∧
                    e.2 ≤ 1000)
      [[("Theatre", 0); ("Pub", 1); ("Commercial Park", 0)]] entries ∧
    Cli.print_summary 5 1000
      [[("Theatre", 0); ("Pub", 1); ("Commercial Park", 0)]] [] =
    (Ok tt,
     [] ++
     [newline +:+ "📊 SUMMARY";
      py_str_repeat "=" 80;
      "Time Units Available: " +:+ py_str 5;
      "Maximum Profit: $" +:+ py_format_comma 1000;
      "Number of Optimal Solutions: "
      +:+ py_str (Z.of_nat
                    (length [[("Theatre", 0); ("Pub", 1);
                              ("Commercial Park", 0)]]))] ++
     if Z.of_nat (length [[("Theatre", 0); ("Pub", 1);
                           ("Commercial Park", 0)]]) >? 1 then
       (newline +:+ "🏆 All Optimal Solutions:") ::
       ((λ ie : Z * (string * Z), summary_line true ie.1 ie.2.1 ie.2.2)
        <$> py_enumerate entries)
     else
       (newline +:+ "🏆 Optimal Solution:") ::
       ((λ e : string * Z, single_line true e.1 e.2) <$> entries)).
Proof.
  apply (print_summary_lists_valid_solutions 5 1000
           [[("Theatre", 0); ("Pub", 1); ("Commercial Park", 0)]] []).
  - lia.
  - vm_compute. reflexivity.
Defined.

Lemma print_header_appends out :
  ∃ lines, Cli.print_header out = (Ok tt, out ++ lines).
Proof.
  unfold Cli.print_header. rewrite !Cli_bind_print.
  destruct (Cli_for_each_appends BUILDINGS
              (λ _ '(building, config),
                 Cli.print ("  • " +:+ building +:+ " (" +:+ code config
                            +:+ "): " +:+ py_str (time config)
                            +:+ " time units, $"
                            +:+ py_format_comma (earning config)
                            +:+ "/period")))
    with (out := (((out ++ [py_str_repeat "=" 80]) ++
                   ["🏗️  MAXIMUM PROFIT BUILDING CONSTRUCTION SOLVER"]) ++
                  [py_str_repeat "=" 80]) ++ ["Building Types:"])
    as (lines & Hrun).
  - intros [b cfg] o _. eexists. reflexivity.
  - rewrite (Cli_bind_Ok _ _ _ _ _ Hrun). unfold Cli.print.
    eexists. rewrite <- !app_assoc. reflexivity.
Qed.

Lemma solve_negative h : h < 0 → solve_dp_all_solutions h = Raise "IndexError".
Proof.
  intros Hh. unfold solve_dp_all_solutions, py_list_repeat.
  rewrite py_range_empty by lia.
  replace (Z.to_nat (h + 1)) with 0%nat by lia. simpl. apply py_index_nil.
Qed.

(** X13: for a horizon that is not negative [batch_mode] runs to the end
    without an exception, with or without the detailed breakdown: after
    the heading and the two lines about the horizon it prints the summary
    of what the optimizer returns and, only when [detailed] is set, the
    breakdown of every solution. *)
Theorem batch_mode_completes (h : Z) (detailed : bool) (out : list string) :
  0 ≤ h →
  ∃ p sols heading summary details,
    solve_dp_all_solutions h = Ok (p, sols) ∧
    Cli.print_header out = (Ok tt, out ++ heading) ∧
    Cli.print_summary h p sols
      (out ++ heading ++ [newline +:+ "⏰ Time Units: " +:+ py_str h; "🔍 Solving..."])
    = (Ok tt,
       (out ++ heading ++ [newline +:+ "⏰ Time Units: " +:+ py_str h; "🔍 Solving..."])
       ++ summary) ∧
    Cli.batch_mode h detailed out =
    (Ok tt,
     (out ++ heading ++ [newline +:+ "⏰ Time Units: " +:+ py_str h; "🔍 Solving..."])
     ++ summary ++ details) ∧
    (detailed = false → details = []).
Proof.
  intros Hh.
  destruct (solve_ok h Hh) as ([p sols] & Hrun & Hok).
  destruct (print_header_appends out) as (heading & Hhead).
  set (pre := out ++ heading
              ++ [newline +:+ "⏰ Time Units: " +:+ py_str h; "🔍 Solving..."]).
  assert (Hsum : ∃ summary,
            Cli.print_summary h p sols pre = (Ok tt, pre ++ summary)).
  { destruct (print_summary_shape h p sols pre Hh Hrun) as (entries & _ & ->).
     eexists. reflexivity. }
  destruct Hsum as (summary & Hsum).
  assert (Hdet : ∃ details,
            Cli.for_each (py_enumerate sols) tt
              (λ _ '(i, solution), Cli.print_solution_details h solution i)
              (pre ++ summary)
            = (Ok tt, (pre ++ summary) ++ details)).
  { apply Cli_for_each_appends. intros [i c] o Hin.
     apply elem_of_zip_r in Hin.
     destruct (solution_entry h p sols c Hok Hin) as (s & q & m & Hs & Hv & _).
     destruct (print_solution_details_rows h c i o s true q m Hs Hv)
       as (rows & -> & _).
     eexists. reflexivity. }
  destruct Hdet as (details & Hdet).
  exists p, sols, heading, summary,
    (if detailed && (Z.of_nat (length sols) >? 0) then details else []).
  split; [done|]. split; [done|]. split; [done|]. split.
  - unfold Cli.batch_mode.
    rewrite (Cli_bind_Ok _ _ _ _ _ Hhead). do 2 rewrite Cli_bind_print.
    rewrite (Cli_bind_lift _ _ _ _ Hrun).
    assert (Hpre : ((out ++ heading)
                    ++ [newline +:+ "⏰ Time Units: " +:+ py_str h])
                   ++ ["🔍 Solving..."] = pre)
      by (subst pre; by rewrite <- !app_assoc).
    rewrite Hpre. fold pre.
    rewrite (Cli_bind_Ok _ _ _ _ _ Hsum).
    destruct (detailed && _).
    + rewrite Hdet. by rewrite <- app_assoc.
    + unfold Cli.ret. by rewrite app_nil_r.
  - by intros ->.
Qed.

Lemma batch_mode_completes_witness :
  ∃ p sols heading summary details,
    solve_dp_all_solutions 14 = Ok (p, sols) ∧
    Cli.print_header ["$ "] = (Ok tt, ["$ "] ++ heading) ∧
    Cli.print_summary 14 p sols
      (["$ "] ++ heading
       ++ [newline +:+ "⏰ Time Units: " +:+ py_str 14; "🔍 Solving..."])
    = (Ok tt,
       (["$ "] ++ heading
        ++ [newline +:+ "⏰ Time Units: " +:+ py_str 14; "🔍 Solving..."])
       ++ summary) ∧
    Cli.batch_mode 14 true ["$ "] =
    (Ok tt,
     (["$ "] ++ heading
      ++ [newline +:+ "⏰ Time Units: " +:+ py_str 14; "🔍 Solving..."])
     ++ summary ++ details) ∧
    (true = false → details = []).
Proof. apply (batch_mode_completes 14 true ["$ "]). lia. Defined.

(** X14: on a negative horizon [batch_mode] prints the heading and the two
    lines about the horizon and then fails with the [IndexError] of the
    optimizer; nothing of a summary is printed. *)
Theorem batch_mode_negative_horizon
    (h : Z) (detailed : bool) (out : list string) :
  h < 0 →
  ∃ heading,
    Cli.print_header out = (Ok tt, out ++ heading) ∧
    Cli.batch_mode h detailed out =
    (Raise "IndexError",
     out ++ heading ++ [newline +:+ "⏰ Time Units: " +:+ py_str h; "🔍 Solving..."]).
Proof.
  intros Hh. destruct (print_header_appends out) as (heading & Hhead).
  exists heading. split; [done|]. unfold Cli.batch_mode.
  rewrite (Cli_bind_Ok _ _ _ _ _ Hhead). do 2 rewrite Cli_bind_print.
  unfold Cli.bind at 1, Cli.lift. rewrite (solve_negative h Hh).
  by rewrite <- !app_assoc.
Qed.

Lemma batch_mode_negative_horizon_witness :
  ∃ heading,
    Cli.print_header [] = (Ok tt, [] ++ heading) ∧
    Cli.batch_mode (-2) false [] =
    (Raise "IndexError",
     [] ++ heading
     ++ [newline +:+ "⏰ Time Units: " +:+ py_str (-2); "🔍 Solving..."]).
Proof. apply (batch_mode_negative_horizon (-2) false []). lia. Defined.

(** ** One more time unit is worth at least the smallest rate *)

Lemma foldr_max_cases (a : Z) (l : list Z) :
  foldr Z.max a l = a ∨ foldr Z.max a l ∈ l.
Proof.
  induction l as [|x l IH]; simpl; [by left|].
  destruct (Z.max_spec x (foldr Z.max a l)) as [[_ ->]|[_ ->]].
  - destruct IH as [->|Hin]; [by left|]. right. by right.
  - right. left.
Qed.

Lemma BUILDINGS_earning b cfg : (b, cfg) ∈ BUILDINGS → 1000 ≤ earning cfg.
Proof.
  intros H%list_elem_of_In. vm_compute in H.
  destruct H as [H|[H|[H|[]]]]; injection H as <- <-; simpl; lia.
Qed.

Lemma V_fuel_grow fuel : ∀ h t,
  0 < V_fuel fuel h t → V_fuel fuel h t + 1000 ≤ V_fuel fuel (h + 1) t.
Proof.
  induction fuel as [|fuel IH]; intros h t; simpl; [lia|].
  destruct (t <=? 0); [lia|].
  set (cand := λ (h : Z) (b : string * config),
                 V_fuel fuel h (t - time b.2) + earning b.2 * Z.max (h - t) 0).
  set (bs := filter (λ b : string * config, time b.2 ≤ t) BUILDINGS).
  change (0 < foldr Z.max (V_fuel fuel h (t - 1)) (cand h <$> bs) →
          foldr Z.max (V_fuel fuel h (t - 1)) (cand h <$> bs) + 1000
          ≤ foldr Z.max (V_fuel fuel (h + 1) (t - 1)) (cand (h + 1) <$> bs)).
  intros Hpos.
  destruct (foldr_max_cases (V_fuel fuel h (t - 1)) (cand h <$> bs))
    as [Heq|Hin].
  - rewrite Heq in *. specialize (IH h (t - 1) Hpos).
    pose proof (foldr_max_ge_base (V_fuel fuel (h + 1) (t - 1))
                  (cand (h + 1) <$> bs)). lia.
  - apply list_elem_of_fmap in Hin as ([b cfg] & Heq & Hb).
    rewrite Heq in *.
    pose proof (foldr_max_ge_elem (V_fuel fuel (h + 1) (t - 1))
                  (cand (h + 1) (b, cfg)) (cand (h + 1) <$> bs)
                  ltac:(apply list_elem_of_fmap; by exists (b, cfg))) as Hge.
    apply list_elem_of_filter in Hb as [_ Hb].
    pose proof (BUILDINGS_earning b cfg Hb) as He.
    etrans; [|exact Hge]. unfold cand in *. simpl in *.
    destruct (Z.le_gt_cases 0 (h - t)) as [Hleft|Hnone].
    + pose proof (V_fuel_mono_h fuel h (h + 1) (t - time cfg) ltac:(lia)).
      rewrite !Z.max_l by lia. nia.
    + rewrite (Z.max_r (h - t) 0) in * by lia.
      specialize (IH h (t - time cfg) ltac:(lia)).
      assert (0 ≤ earning cfg * Z.max (h + 1 - t) 0)
        by (apply Z.mul_nonneg_nonneg; lia).
      lia.
Qed.

(** X15: from horizon 5 on every further time unit raises the maximum
    profit by at least 1000, the smallest rate of the catalog. *)
Theorem solve_max_profit_grows (h : Z) :
  5 ≤ h →
  ∃ p sols p' sols',
    solve_dp_all_solutions h = Ok (p, sols) ∧
    solve_dp_all_solutions (h + 1) = Ok (p', sols') ∧
    p + 1000 ≤ p'.
Proof.
  intros Hh.
  destruct (solve_ok h ltac:(lia)) as ([p sols] & Hrun & Hp & _).
  destruct (solve_ok (h + 1) ltac:(lia)) as ([p' sols'] & Hrun' & Hp' & _).
  simpl in *. exists p, sols, p', sols'. split; [done|]. split; [done|].
  rewrite Hp, Hp'.
  pose proof (V_positive h Hh) as Hpos.
  pose proof (V_fuel_grow (Z.to_nat h) h h Hpos) as Hgrow.
  fold (V h h) in Hgrow. fold (V (h + 1) h) in Hgrow.
  pose proof (V_mono_t (h + 1) h (h + 1) ltac:(lia)). lia.
Qed.

Lemma solve_max_profit_grows_witness :
  ∃ p sols p' sols',
    solve_dp_all_solutions 12 = Ok (p, sols) ∧
    solve_dp_all_solutions (12 + 1) = Ok (p', sols') ∧
    p + 1000 ≤ p'.
Proof. apply (solve_max_profit_grows 12). lia. Defined.
